(** * adt::binary_tree — node store, iterators and node handles

    A shallow embedding of [binary_tree.hpp].  Nodes live in a heap indexed
    by addresses; a C++ pointer is an optional address ([None] is
    [nullptr]).  Reading through a pointer that is not allocated is
    undefined behaviour and is reported as [Undefined]; a C++ exception is
    reported as [Throw]. *)

From Stdlib Require Import ZArith String Lia.
From stdpp Require Import base option gmap list.

(** ** Results of a call *)

Inductive result (A : Type) : Type :=
  | Ok (a : A)
  | Throw (what : string)
  | Undefined.
Arguments Ok {A} a.
Arguments Throw {A} what.
Arguments Undefined {A}.

Definition rbind {A B : Type} (m : result A) (k : A → result B) : result B :=
  match m with
  | Ok a => k a
  | Throw w => Throw w
  | Undefined => Undefined
  end.

Notation "x ←r m ; k" := (rbind m (fun x => k))
  (at level 100, m at next level, right associativity, only parsing).

(** ** Pointers and [size_type] *)

Abbreviation addr := positive (only parsing).
Abbreviation ptr := (option positive) (only parsing).

(** [p == q] on two (possibly null) node pointers. *)
Definition ptr_eqb (p q : ptr) : bool := bool_decide (p = q).

(** [std::size_t] is taken to be 64 bits wide; its addition wraps. *)
Definition size_modulus : Z := 2 ^ 64.

Definition size_add (a b : Z) : Z := ((a + b) mod size_modulus)%Z.

(** ** The value type

    [T] must support [<] and [==]; the spec asks for a total order.  The
    source also uses [>], read as the flipped [<]. *)

Class Ordered (T : Type) := {
  value_eq_dec :: EqDecision T;
  ltb : T → T → bool;
  ltb_irrefl : ∀ x, ltb x x = false;
  ltb_trans : ∀ x y z, ltb x y = true → ltb y z = true → ltb x z = true;
  ltb_total : ∀ x y, ltb x y = false → ltb y x = false → x = y
}.

Definition gtb {T} `{Ordered T} (x y : T) : bool := ltb y x.

(** Integers as a value type. *)
#[export] Instance Z_Ordered : Ordered Z := {|
  ltb := Z.ltb;
  ltb_irrefl := Z.ltb_irrefl;
  ltb_trans := ltac:(intros x y z; rewrite !Z.ltb_lt; lia);
  ltb_total := ltac:(intros x y; rewrite !Z.ltb_ge; lia)
|}.

(** ** Nodes *)

Module Node.

Record t (T : Type) : Type := mk {
  value : T;
  parent : ptr;
  left : ptr;
  right : ptr;
  height : Z
}.
Arguments mk {T} _ _ _ _ _.
Arguments value {T} _.
Arguments parent {T} _.
Arguments left {T} _.
Arguments right {T} _.
Arguments height {T} _.

Definition set_left {T} (n : t T) (p : ptr) : t T :=
  mk (value n) (parent n) p (right n) (height n).

Definition set_right {T} (n : t T) (p : ptr) : t T :=
  mk (value n) (parent n) (left n) p (height n).

Definition set_height {T} (n : t T) (k : Z) : t T :=
  mk (value n) (parent n) (left n) (right n) k.

(** Defaulted [operator==]: member-wise, pointers compared by address. *)
Definition eqb {T} `{Ordered T} (a b : t T) : bool :=
  bool_decide (value a = value b)
  && ptr_eqb (parent a) (parent b)
  && ptr_eqb (left a) (left b)
  && ptr_eqb (right a) (right b)
  && (height a =? height b)%Z.

End Node.

Abbreviation heap T := (gmap positive (Node.t T)) (only parsing).

Section NodeStore.
Context {T : Type} `{Ordered T}.

(** [p->...]: the node behind an address, undefined when not allocated. *)
Definition load (h : heap T) (a : addr) : result (Node.t T) :=
  match h !! a with
  | Some n => Ok n
  | None => Undefined
  end.

(** A pointer that is null or designates an allocated node. *)
Definition valid_ptr (h : heap T) (p : ptr) : Prop :=
  match p with
  | None => True
  | Some a => is_Some (h !! a)
  end.

(** [_Node(value)] built in the storage at [this]. *)
Definition Node_value (h : heap T) (this : addr) (v : T) : heap T :=
  <[this := Node.mk v None None None 0%Z]> h.

(** [_Node(value, parent, left, right, height)] built in the storage at
    [this]: the member initialisers, the height computation, then the
    link into [parent]. *)
Definition Node_link (h : heap T) (this : addr) (v : T)
    (parent left right : ptr) (height : Z) : result (heap T) :=
  let h0 := <[this := Node.mk v parent left right height]> h in
  hgt ←r match left, right with
         | Some l, Some r =>
             nl ←r load h0 l; nr ←r load h0 r;
             Ok (size_add 1 (Z.max (Node.height nl) (Node.height nr)))
         | Some l, None =>
             nl ←r load h0 l; Ok (size_add 1 (Node.height nl))
         | None, Some r =>
             nr ←r load h0 r; Ok (size_add 1 (Node.height nr))
         | None, None => Ok 0%Z
         end;
  let h1 := <[this := Node.mk v parent left right hgt]> h0 in
  match parent with
  | None => Ok h1
  | Some p =>
      pn ←r load h1 p;
      if ltb v (Node.value pn) then
        Ok (<[p := Node.set_left pn (Some this)]> h1)
      else if gtb v (Node.value pn) then
        Ok (<[p := Node.set_right pn (Some this)]> h1)
      else Ok h1
  end.

End NodeStore.

(** The stored height of the node behind a child pointer, if there is
    one. *)
Definition child_height {T : Type} (h : heap T) (p : ptr) : option Z :=
  match p with
  | None => None
  | Some c => Node.height <$> h !! c
  end.

(** The height the linking constructor computes from the two children. *)
Definition height_rule {T : Type} (h : heap T) (n : Node.t T) : Z :=
  match child_height h (Node.left n), child_height h (Node.right n) with
  | Some x, Some y => size_add 1 (Z.max x y)
  | Some x, None => size_add 1 x
  | None, Some y => size_add 1 y
  | None, None => 0%Z
  end.

(** Every node below a (possibly null) pointer is allocated and stores the
    height that the rule of the linking constructor gives for it. *)
Inductive heights_ok {T : Type} (h : heap T) : ptr → Prop :=
  | heights_ok_null : heights_ok h None
  | heights_ok_node a n :
      h !! a = Some n →
      heights_ok h (Node.left n) → heights_ok h (Node.right n) →
      Node.height n = height_rule h n →
      heights_ok h (Some a).

(** ** The tree object and its protected node primitives *)

Record binary_tree (Alloc NodeAlloc : Type) : Type := mk_tree {
  root : ptr;
  allocator : Alloc;
  node_allocator : NodeAlloc;
  sz : Z
}.
Arguments mk_tree {Alloc NodeAlloc} _ _ _ _.
Arguments root {Alloc NodeAlloc} _.
Arguments allocator {Alloc NodeAlloc} _.
Arguments node_allocator {Alloc NodeAlloc} _.
Arguments sz {Alloc NodeAlloc} _.

Module BinaryTree.

Section Tree.
Context {T : Type} `{Ordered T}.
Context {Alloc NodeAlloc : Type} `{EqDecision Alloc} `{EqDecision NodeAlloc}.

Abbreviation tree := (binary_tree Alloc NodeAlloc) (only parsing).

(** [binary_tree()] and [binary_tree(const allocator_type&)]. *)
Definition binary_tree_new (al : Alloc) (nal : NodeAlloc) : tree :=
  mk_tree None al nal 0%Z.

(** [node_allocator_traits::allocate(node_allocator, 1)]: storage that is
    not in use (allocation is taken to succeed). *)
Definition allocate (h : heap T) : addr := fresh (dom h).

(** [_construct_node(value)]. *)
Definition _construct_node (t : tree) (h : heap T) (v : T)
    : result (tree * heap T * ptr) :=
  let node := allocate h in
  Ok (t, Node_value h node v, Some node).

(** [_construct_node(value, parent, left, right, height)]. *)
Definition _construct_node_link (t : tree) (h : heap T) (v : T)
    (parent left right : ptr) (height : Z) : result (tree * heap T * ptr) :=
  let node := allocate h in
  h' ←r Node_link h node v parent left right height;
  Ok (t, h', Some node).

(** [_destroy_node(node)]; [destroy] followed by [deallocate] removes the
    node from the heap. *)
Definition _destroy_node (t : tree) (h : heap T) (node : ptr)
    : result (tree * heap T * ptr) :=
  match node with
  | None => Ok (t, h, None)
  | Some a =>
      n ←r load h a;
      match Node.parent n with
      | None => Ok (t, delete a h, None)
      | Some p =>
          pn ←r load h p;
          let h1 :=
            if ptr_eqb (Node.left pn) (Some a) then
              <[p := Node.set_left pn None]> h
            else if ptr_eqb (Node.right pn) (Some a) then
              <[p := Node.set_right pn None]> h
            else h in
          Ok (t, delete a h1, Some p)
      end
  end.

Definition size (t : tree) : Z := sz t.

Definition empty (t : tree) : bool := (sz t =? 0)%Z.

(** Defaulted [binary_tree::operator==]: the data members in declaration
    order, [root] compared as a pointer. *)
Definition tree_eqb (a b : tree) : bool :=
  ptr_eqb (root a) (root b)
  && bool_decide (allocator a = allocator b)
  && bool_decide (node_allocator a = node_allocator b)
  && (sz a =? sz b)%Z.

(** *** Sequences of node primitives, and what [root] reaches *)

Inductive node_op : Type :=
  | OpConstruct (v : T)
  | OpConstructLink (v : T) (parent left right : ptr) (height : Z)
  | OpDestroy (node : ptr).

Definition run_op (o : node_op) (t : tree) (h : heap T)
    : result (tree * heap T) :=
  match o with
  | OpConstruct v =>
      r ←r _construct_node t h v; Ok (r.1.1, r.1.2)
  | OpConstructLink v p l r k =>
      r ←r _construct_node_link t h v p l r k; Ok (r.1.1, r.1.2)
  | OpDestroy p =>
      r ←r _destroy_node t h p; Ok (r.1.1, r.1.2)
  end.

Fixpoint run_ops (os : list node_op) (t : tree) (h : heap T)
    : result (tree * heap T) :=
  match os with
  | [] => Ok (t, h)
  | o :: os' => s ←r run_op o t h; run_ops os' s.1 s.2
  end.

(** The nodes met when following child links from [p], parent first. *)
Fixpoint nodes_from (fuel : nat) (h : heap T) (p : ptr) : list addr :=
  match fuel with
  | O => []
  | S f =>
      match p with
      | None => []
      | Some a =>
          match h !! a with
          | None => []
          | Some n =>
              a :: nodes_from f h (Node.left n) ++ nodes_from f h (Node.right n)
          end
      end
  end.

Definition reachable_count (t : tree) (h : heap T) : Z :=
  Z.of_nat (length (nodes_from (S (base.size h)) h (root t))).

(** The comparison of two trees as the specification words it: node by
    node from the two roots, each node's value and height and, in turn, its
    two subtrees. *)
Fixpoint spec_nodes_eqb (fuel : nat) (h : heap T) (p q : ptr) : bool :=
  match fuel with
  | O => false
  | S f =>
      match p, q with
      | None, None => true
      | Some a, Some b =>
          match h !! a, h !! b with
          | Some n, Some m =>
              bool_decide (Node.value n = Node.value m)
              && (Node.height n =? Node.height m)%Z
              && bool_decide (is_Some (Node.parent n) ↔ is_Some (Node.parent m))
              && spec_nodes_eqb f h (Node.left n) (Node.left m)
              && spec_nodes_eqb f h (Node.right n) (Node.right m)
          | _, _ => false
          end
      | _, _ => false
      end
  end.

Definition spec_tree_eqb (h : heap T) (a b : tree) : bool :=
  spec_nodes_eqb (S (base.size h)) h (root a) (root b).

End Tree.

End BinaryTree.

(** ** Iterators

    An iterator wraps a (possibly null) node pointer; null is the end
    position.  The reverse iterators derive from the forward ones and
    inherit their dereference operators. *)

Module const_iterator.

Record t : Type := mk { node : ptr }.

Section Ops.
Context {T : Type}.

(** [const_iterator(const binary_tree&)]: starts at the root. *)
Definition of_tree {Alloc NodeAlloc} (tr : binary_tree Alloc NodeAlloc) : t :=
  mk (root tr).

(** [operator*]. *)
Definition deref (h : heap T) (it : t) : result T :=
  match node it with
  | None => Throw "segmentation fault"
  | Some a => n ←r load h a; Ok (Node.value n)
  end.

(** [operator->]: the address of the node whose [value] member is
    designated. *)
Definition arrow (h : heap T) (it : t) : result addr :=
  match node it with
  | None => Throw "segmentation fault"
  | Some a => n ←r load h a; Ok a
  end.

End Ops.

End const_iterator.

Module iterator.

Record t : Type := mk { node : ptr }.

Section Ops.
Context {T : Type}.

Definition of_tree {Alloc NodeAlloc} (tr : binary_tree Alloc NodeAlloc) : t :=
  mk (root tr).

Definition deref (h : heap T) (it : t) : result T :=
  match node it with
  | None => Throw "segmentation fault"
  | Some a => n ←r load h a; Ok (Node.value n)
  end.

Definition arrow (h : heap T) (it : t) : result addr :=
  match node it with
  | None => Throw "segmentation fault"
  | Some a => n ←r load h a; Ok a
  end.

(** [operator const_iterator()]. *)
Definition to_const (it : t) : const_iterator.t := const_iterator.mk (node it).

End Ops.

End iterator.

Module const_reverse_iterator.

Record t : Type := mk { base : const_iterator.t }.

Definition deref {T} (h : heap T) (it : t) : result T :=
  const_iterator.deref h (base it).

Definition arrow {T} (h : heap T) (it : t) : result addr :=
  const_iterator.arrow h (base it).

End const_reverse_iterator.

Module reverse_iterator.

Record t : Type := mk { base : iterator.t }.

Definition deref {T} (h : heap T) (it : t) : result T :=
  iterator.deref h (base it).

Definition arrow {T} (h : heap T) (it : t) : result addr :=
  iterator.arrow h (base it).

End reverse_iterator.

(** Reading the [value] member through the pointer [operator->] returned. *)
Definition value_at {T} (h : heap T) (a : addr) : result T :=
  n ←r load h a; Ok (Node.value n).

(** ** Node handles

    Handle objects have an identity of their own (two names may denote the
    same handle), so they are kept in a store indexed by object address. *)

Module node_type.

Record t (NodeAlloc : Type) : Type := mk {
  node : ptr;
  allocator : NodeAlloc
}.
Arguments mk {NodeAlloc} _ _.
Arguments node {NodeAlloc} _.
Arguments allocator {NodeAlloc} _.

Section Ops.
Context {T : Type} {NodeAlloc : Type}.
(** [allocator_type()]. *)
Context (alloc_default : NodeAlloc).

Abbreviation handles := (gmap positive (t NodeAlloc)) (only parsing).

Definition get (hs : handles) (x : addr) : result (t NodeAlloc) :=
  match hs !! x with
  | Some o => Ok o
  | None => Undefined
  end.

(** [x.node = p]. *)
Definition set_node (hs : handles) (x : addr) (p : ptr) : result handles :=
  o ←r get hs x; Ok (<[x := mk p (allocator o)]> hs).

(** [x.allocator = al]. *)
Definition set_allocator (hs : handles) (x : addr) (al : NodeAlloc)
    : result handles :=
  o ←r get hs x; Ok (<[x := mk (node o) al]> hs).

(** [_destroy()]. *)
Definition _destroy (hs : handles) (h : heap T) (this : addr)
    : result (handles * heap T) :=
  me ←r get hs this;
  match node me with
  | None => Ok (hs, h)
  | Some a =>
      n ←r load h a;
      hs' ←r set_node hs this None;
      Ok (hs', delete a h)
  end.

(** [node_type()] and [node_type(nullptr)] built in the storage at [this]. *)
Definition construct_null (hs : handles) (this : addr) : handles :=
  <[this := mk None alloc_default]> hs.

(** [node_type(node_type&& other)] built in the storage at [this]; [junk]
    is the indeterminate content of the uninitialised [node] member. *)
Definition move_construct (hs : handles) (h : heap T) (this other : addr)
    (junk : ptr) : result (handles * heap T) :=
  let hs0 := <[this := mk junk alloc_default]> hs in
  o ←r get hs0 other;
  match node o with
  | None => hs1 ←r set_node hs0 this None; Ok (hs1, h)
  | Some _ =>
      hs1 ←r set_node hs0 this (node o);
      hs2 ←r set_node hs1 other None;
      o' ←r get hs2 other;
      hs3 ←r set_allocator hs2 this (allocator o');
      hs4 ←r set_allocator hs3 other alloc_default;
      Ok (hs4, h)
  end.

(** [operator=(node_type&& other)]. *)
Definition move_assign (hs : handles) (h : heap T) (this other : addr)
    : result (handles * heap T) :=
  s ←r _destroy hs h this;
  o ←r get s.1 other;
  hs1 ←r set_node s.1 this (node o);
  hs2 ←r set_node hs1 other None;
  o' ←r get hs2 other;
  hs3 ←r set_allocator hs2 this (allocator o');
  hs4 ←r set_allocator hs3 other alloc_default;
  Ok (hs4, s.2).


(** [swap(node_type& other)]. *)
Definition swap (hs : handles) (this other : addr) : result handles :=
  me ←r get hs this;
  let temp := node me in
  o ←r get hs other;
  hs1 ←r set_node hs this (node o);
  set_node hs1 other temp.

(** [_construct(const _Node* other)]: a newly allocated node built from
    [other->value] by [_Node(value)]. *)
Definition _construct (hs : handles) (h : heap T) (this other_node : addr)
    : result (handles * heap T) :=
  let a := BinaryTree.allocate h in
  hs1 ←r set_node hs this (Some a);
  n ←r load h other_node;
  Ok (hs1, Node_value h a (Node.value n)).

(** [node_type(const node_type& other)] built in the storage at [this];
    [junk] is the indeterminate content of the uninitialised [node]
    member. *)
Definition copy_construct (hs : handles) (h : heap T) (this other : addr)
    (junk : ptr) : result (handles * heap T) :=
  let hs0 := <[this := mk junk alloc_default]> hs in
  o ←r get hs0 other;
  match node o with
  | None => hs1 ←r set_node hs0 this None; Ok (hs1, h)
  | Some b =>
      s ←r _construct hs0 h this b;
      o' ←r get s.1 other;
      hs2 ←r set_allocator s.1 this (allocator o');
      Ok (hs2, s.2)
  end.

(** [operator=(const node_type& other)]. *)
Definition copy_assign (hs : handles) (h : heap T) (this other : addr)
    : result (handles * heap T) :=
  if bool_decide (this = other) then Ok (hs, h)
  else
    s ←r _destroy hs h this;
    o ←r get s.1 other;
    match node o with
    | None => Ok s
    | Some b =>
        s2 ←r _construct s.1 s.2 this b;
        o' ←r get s2.1 other;
        hs3 ←r set_allocator s2.1 this (allocator o');
        Ok (hs3, s2.2)
    end.

(** [~node_type()]: [_destroy()], after which the handle object is gone. *)
Definition destructor (hs : handles) (h : heap T) (this : addr)
    : result (handles * heap T) :=
  s ←r _destroy hs h this;
  Ok (delete this s.1, s.2).

(** [explicit operator bool()]. *)
Definition to_bool (o : t NodeAlloc) : bool := negb (ptr_eqb (node o) None).

(** [empty()]. *)
Definition empty (o : t NodeAlloc) : bool := ptr_eqb (node o) None.

(** [operator*] and [value()]. *)
Definition deref (h : heap T) (o : t NodeAlloc) : result T :=
  match node o with
  | None => Throw "segmentation fault"
  | Some a => n ←r load h a; Ok (Node.value n)
  end.

Definition value (h : heap T) (o : t NodeAlloc) : result T :=
  match node o with
  | None => Throw "segmentation fault"
  | Some a => n ←r load h a; Ok (Node.value n)
  end.

(** [operator->]. *)
Definition arrow (h : heap T) (o : t NodeAlloc) : result addr :=
  match node o with
  | None => Throw "segmentation fault"
  | Some a => n ←r load h a; Ok a
  end.

End Ops.

End node_type.

(** ** In-order stepping ([operator++] and [operator--])

    The header declares the increment and decrement operators of the four
    iterator classes but contains no body for them. *)

Inductive side : Type := L | R.

Definition flip (s : side) : side :=
  match s with L => R | R => L end.

Definition child {T} (s : side) (n : Node.t T) : ptr :=
  match s with L => Node.left n | R => Node.right n end.

Section Stepping.
Context {T : Type}.

(** Modelled from the spec: the body of the descent in [operator++] and
    [operator--] is missing from the header; section 4.2 says to descend
    to the leftmost (for the predecessor: rightmost) descendant.  [descend
    s] follows the [s] child links from [a] as long as there is one.  The
    loop is bounded by [fuel]; [None] means the bound was reached. *)
Fixpoint descend (s : side) (fuel : nat) (h : heap T) (a : addr)
    : option (result addr) :=
  match fuel with
  | O => None
  | S f =>
      match h !! a with
      | None => Some Undefined
      | Some n =>
          match child s n with
          | None => Some (Ok a)
          | Some c => descend s f h c
          end
      end
  end.

(** Modelled from the spec: the body of the ascent in [operator++] and
    [operator--] is missing from the header; section 4.2 says to ascend
    via parent until arriving as a left (for the predecessor: right) child
    of some ancestor and to return that ancestor, or the null position when
    there is none.  [ascend s] climbs from [a] until it arrives as the [s]
    child. *)
Fixpoint ascend (s : side) (fuel : nat) (h : heap T) (a : addr)
    : option (result ptr) :=
  match fuel with
  | O => None
  | S f =>
      match h !! a with
      | None => Some Undefined
      | Some n =>
          match Node.parent n with
          | None => Some (Ok None)
          | Some p =>
              match h !! p with
              | None => Some Undefined
              | Some pn =>
                  if ptr_eqb (child s pn) (Some a) then Some (Ok (Some p))
                  else ascend s f h p
              end
          end
      end
  end.

(** Modelled from the spec: the step of [operator++] ([s = R]) and of
    [operator--] ([s = L]) from the non-end position [a], whose body is
    missing from the header: if a child on side [s] exists, descend from it
    to its extreme descendant on the other side; else ascend until arriving
    as a child on the other side.  Each loop is given as many rounds as
    there are allocated nodes, which is all a loop can use in a heap that
    holds trees. *)
Definition advance (s : side) (h : heap T) (a : addr) : option (result ptr) :=
  match h !! a with
  | None => Some Undefined
  | Some n =>
      match child s n with
      | Some c =>
          match descend (flip s) (size h) h c with
          | Some (Ok d) => Some (Ok (Some d))
          | Some (Throw w) => Some (Throw w)
          | Some Undefined => Some Undefined
          | None => None
          end
      | None => ascend (flip s) (size h) h a
      end
  end.

(** Modelled from the spec: [successor()] of section 4.2. *)
Definition successor (h : heap T) (a : addr) : option (result ptr) :=
  advance R h a.

(** Modelled from the spec: [predecessor()] of section 4.2. *)
Definition predecessor (h : heap T) (a : addr) : option (result ptr) :=
  advance L h a.

(** A heap holds trees: child and parent links agree, the two child links
    of a node differ, and [depth] counts the links up to a parentless
    node. *)
Record tree_shaped (h : heap T) (depth : addr → nat) : Prop := {
  ts_child : ∀ s a n c, h !! a = Some n → child s n = Some c →
    ∃ m, h !! c = Some m ∧ Node.parent m = Some a ∧ depth c = S (depth a);
  ts_parent : ∀ c m a, h !! c = Some m → Node.parent m = Some a →
    ∃ n s, h !! a = Some n ∧ child s n = Some c;
  ts_distinct : ∀ s a n c, h !! a = Some n → child s n = Some c →
    child (flip s) n ≠ Some c;
  ts_root : ∀ a n, h !! a = Some n → Node.parent n = None → depth a = 0
}.

Definition well_formed (h : heap T) : Prop := ∃ depth, tree_shaped h depth.

(** A decision procedure for [tree_shaped], node by node. *)
Definition child_okb (h : heap T) (depth : addr → nat) (s : side)
    (a : addr) (n : Node.t T) : bool :=
  match child s n with
  | None => true
  | Some c =>
      match h !! c with
      | None => false
      | Some m =>
          ptr_eqb (Node.parent m) (Some a)
          && Nat.eqb (depth c) (S (depth a))
          && negb (ptr_eqb (child (flip s) n) (Some c))
      end
  end.

Definition parent_okb (h : heap T) (depth : addr → nat)
    (a : addr) (n : Node.t T) : bool :=
  match Node.parent n with
  | None => Nat.eqb (depth a) 0
  | Some p =>
      match h !! p with
      | None => false
      | Some pn =>
          ptr_eqb (Node.left pn) (Some a) || ptr_eqb (Node.right pn) (Some a)
      end
  end.

Definition node_okb (h : heap T) (depth : addr → nat)
    (e : addr * Node.t T) : bool :=
  child_okb h depth L e.1 e.2 && child_okb h depth R e.1 e.2
  && parent_okb h depth e.1 e.2.

Definition tree_shapedb (h : heap T) (depth : addr → nat) : bool :=
  forallb (node_okb h depth) (map_to_list h).

End Stepping.

(** ** Sample heaps over integer values *)

Definition leaf (v : Z) (parent : ptr) : Node.t Z :=
  Node.mk v parent None None 0%Z.

(** A single node holding 5. *)
Definition heap_one : gmap positive (Node.t Z) :=
  {[ 1%positive := leaf 5 None ]}.

(** 5 at the root, 3 as its left child. *)
Definition heap_two : gmap positive (Node.t Z) :=
  <[ 1%positive := Node.mk 5%Z None (Some 2%positive) None 1%Z ]>
    {[ 2%positive := leaf 3 (Some 1%positive) ]}.

(** 5 at address 1 and a node at address 2 that names it as parent
    without being linked from it. *)
Definition heap_orphan : gmap positive (Node.t Z) :=
  <[ 1%positive := leaf 5 None ]> {[ 2%positive := leaf 3 (Some 1%positive) ]}.

(** Two separate single-node trees, both holding 5. *)
Definition heap_twins : gmap positive (Node.t Z) :=
  <[ 1%positive := leaf 5 None ]> {[ 2%positive := leaf 5 None ]}.

Definition tree_at_2 (n : Z) : binary_tree unit unit :=
  mk_tree (Some 2%positive) tt tt n.

(** Two handle objects: the one at 10 is empty, the one at 11 holds the
    node at address 1. *)
Definition two_handles : gmap positive (node_type.t unit) :=
  <[ 10%positive := node_type.mk None tt ]>
    {[ 11%positive := node_type.mk (Some 1%positive) tt ]}.

(** 5 at the root, 3 to its left and 8 to its right. *)
Definition heap_three : gmap positive (Node.t Z) :=
  <[ 1%positive := Node.mk 5%Z None (Some 2%positive) (Some 3%positive) 1%Z ]>
    (<[ 2%positive := leaf 3 (Some 1%positive) ]>
       {[ 3%positive := leaf 8 (Some 1%positive) ]}).

Definition depth_three (a : addr) : nat :=
  if (a =? 1)%positive then 0 else 1.

(** The nodes obtained by constructing 5, 3, 8, 1 and 4 in turn, each
    linked under the node where a search from the root ends. *)
Definition heap_five : gmap positive (Node.t Z) :=
  <[ 1%positive := Node.mk 5%Z None (Some 2%positive) (Some 3%positive) 0%Z ]>
    (<[ 2%positive := Node.mk 3%Z (Some 1%positive) (Some 4%positive)
                        (Some 5%positive) 0%Z ]>
       (<[ 3%positive := leaf 8 (Some 1%positive) ]>
          (<[ 4%positive := leaf 1 (Some 2%positive) ]>
             {[ 5%positive := leaf 4 (Some 2%positive) ]}))).

Definition build_five
    : result (binary_tree unit unit * gmap positive (Node.t Z) * ptr) :=
  let t0 := BinaryTree.binary_tree_new tt tt in
  r1 ←r BinaryTree._construct_node_link t0 ∅ 5%Z None None None 0%Z;
  r2 ←r BinaryTree._construct_node_link r1.1.1 r1.1.2 3%Z r1.2 None None 0%Z;
  r3 ←r BinaryTree._construct_node_link r2.1.1 r2.1.2 8%Z r1.2 None None 0%Z;
  r4 ←r BinaryTree._construct_node_link r3.1.1 r3.1.2 1%Z r2.2 None None 0%Z;
  BinaryTree._construct_node_link r4.1.1 r4.1.2 4%Z r2.2 None None 0%Z.

(** 5 and, linked to its left, 3, as two linking constructions leave
    them (the height of 5 is not brought up to date). *)
Definition heap_two_flat : gmap positive (Node.t Z) :=
  <[ 1%positive := Node.mk 5%Z None (Some 2%positive) None 0%Z ]>
    {[ 2%positive := leaf 3 (Some 1%positive) ]}.

(** Two handle objects that both hold the node at address 1. *)
Definition shared_handles : gmap positive (node_type.t unit) :=
  <[ 10%positive := node_type.mk (Some 1%positive) tt ]>
    {[ 11%positive := node_type.mk (Some 1%positive) tt ]}.

(** A tree object whose root is the node at address 1. *)
Definition tree_at_1 (n : Z) : binary_tree unit unit :=
  mk_tree (Some 1%positive) tt tt n.

(** * Properties *)

(** ** Order and arithmetic facts *)

Lemma ltb_asym {T} `{Ordered T} (x y : T) : ltb x y = true → ltb y x = false.
Proof.
  intros Hxy. destruct (ltb y x) eqn:Hyx; [|done].
  pose proof (ltb_trans _ _ _ Hxy Hyx) as Hxx.
  rewrite ltb_irrefl in Hxx. discriminate.
Qed.

Lemma size_add_no_wrap (k : Z) :
  (0 ≤ k < size_modulus - 1)%Z → size_add 1 k = (1 + k)%Z.
Proof. intros Hk. unfold size_add. apply Z.mod_small. lia. Qed.

(** ** The linking constructor *)

Section NodeStoreFacts.
Context {T : Type} `{Ordered T}.

Lemma load_Some (h : heap T) a n : h !! a = Some n → load h a = Ok n.
Proof. intros Hn. unfold load. by rewrite Hn. Qed.

(** The height the constructor stores, read off the children. *)
Lemma Node_link_height_defined (h : heap T) this v parent l r k :
  h !! this = None → valid_ptr h l → valid_ptr h r →
  ∃ hgt,
    match l, r with
    | Some a, Some b =>
        nl ←r load (<[this := Node.mk v parent l r k]> h) a;
        nr ←r load (<[this := Node.mk v parent l r k]> h) b;
        Ok (size_add 1 (Z.max (Node.height nl) (Node.height nr)))
    | Some a, None =>
        nl ←r load (<[this := Node.mk v parent l r k]> h) a;
        Ok (size_add 1 (Node.height nl))
    | None, Some b =>
        nr ←r load (<[this := Node.mk v parent l r k]> h) b;
        Ok (size_add 1 (Node.height nr))
    | None, None => Ok 0%Z
    end = Ok hgt ∧
    (l = None → r = None → hgt = 0%Z) ∧
    (∀ a na, l = Some a → r = None → h !! a = Some na →
       hgt = size_add 1 (Node.height na)) ∧
    (∀ b nb, l = None → r = Some b → h !! b = Some nb →
       hgt = size_add 1 (Node.height nb)) ∧
    (∀ a na b nb, l = Some a → r = Some b →
       h !! a = Some na → h !! b = Some nb →
       hgt = size_add 1 (Z.max (Node.height na) (Node.height nb))).
Proof.
  intros Hthis Hl Hr.
  assert (Hld : ∀ a, is_Some (h !! a) →
    ∃ n, h !! a = Some n ∧
         load (<[this := Node.mk v parent l r k]> h) a = Ok n).
  { intros a [n Hn]. exists n. split; [done|].
    apply load_Some. rewrite lookup_insert_ne; [done|]. congruence. }
  destruct l as [a|], r as [b|].
  - destruct (Hld a Hl) as (na & Hna & ->).
    destruct (Hld b Hr) as (nb & Hnb & ->).
    eexists. split; [done|]. repeat split; intros; by simplify_eq.
  - destruct (Hld a Hl) as (na & Hna & ->).
    eexists. split; [done|]. repeat split; intros; by simplify_eq.
  - destruct (Hld b Hr) as (nb & Hnb & ->).
    eexists. split; [done|]. repeat split; intros; by simplify_eq.
  - eexists. split; [done|]. repeat split; intros; by simplify_eq.
Qed.

(** C1: a call of the linking constructor with a non-null parent sets the
    parent's left child pointer to the new node when the new value compares
    less than the parent's value, sets the parent's right child pointer to
    the new node when it compares greater, and leaves the parent node as it
    was when the two values are equal. *)
Theorem link_sets_parent_child (h : heap T) this v p pn l r k :
  h !! this = None → h !! p = Some pn → valid_ptr h l → valid_ptr h r →
  ∃ h', Node_link h this v (Some p) l r k = Ok h' ∧
    (ltb v (Node.value pn) = true →
       h' !! p = Some (Node.set_left pn (Some this))) ∧
    (gtb v (Node.value pn) = true →
       h' !! p = Some (Node.set_right pn (Some this))) ∧
    (v = Node.value pn → h' !! p = Some pn).
Proof.
  intros Hthis Hp Hl Hr.
  destruct (Node_link_height_defined h this v (Some p) l r k Hthis Hl Hr)
    as (hgt & Hh & _).
  assert (Hne : this ≠ p) by congruence.
  unfold Node_link. rewrite Hh. cbn [rbind].
  rewrite (load_Some _ p pn);
    [|by rewrite !lookup_insert_ne by done].
  cbn [rbind]. unfold gtb.
  destruct (ltb v (Node.value pn)) eqn:Hlt.
  - eexists. split; [done|]. split; [|split].
    + intros _. by rewrite lookup_insert_eq.
    + intros Hgt. rewrite (ltb_asym _ _ Hlt) in Hgt. discriminate.
    + intros ->. rewrite ltb_irrefl in Hlt. discriminate.
  - destruct (ltb (Node.value pn) v) eqn:Hgt.
    + eexists. split; [done|]. split; [|split].
      * discriminate.
      * intros _. by rewrite lookup_insert_eq.
      * intros ->. rewrite ltb_irrefl in Hgt. discriminate.
    + eexists. split; [done|]. split; [|split]; try discriminate.
      intros _. by rewrite !lookup_insert_ne by done.
Qed.

End NodeStoreFacts.

Section HeightFacts.
Context {T : Type} `{Ordered T}.

(** C2: whatever height argument is passed, the node built by the linking
    constructor stores height 0 when both children are null, 1 plus the
    sole child's height when exactly one child is non-null, and 1 plus the
    maximum of the two children's heights when both are non-null (the
    additions being those of [size_type]). *)
Theorem link_stores_height (h : heap T) this v parent l r k :
  h !! this = None → valid_ptr h parent → valid_ptr h l → valid_ptr h r →
  ∃ h' n, Node_link h this v parent l r k = Ok h' ∧ h' !! this = Some n ∧
    (l = None → r = None → Node.height n = 0%Z) ∧
    (∀ a na, l = Some a → r = None → h !! a = Some na →
       Node.height n = size_add 1 (Node.height na)) ∧
    (∀ b nb, l = None → r = Some b → h !! b = Some nb →
       Node.height n = size_add 1 (Node.height nb)) ∧
    (∀ a na b nb, l = Some a → r = Some b →
       h !! a = Some na → h !! b = Some nb →
       Node.height n = size_add 1 (Z.max (Node.height na) (Node.height nb))).
Proof.
  intros Hthis Hp Hl Hr.
  destruct (Node_link_height_defined h this v parent l r k Hthis Hl Hr)
    as (hgt & Hh & Hcases).
  unfold Node_link. rewrite Hh. cbn [rbind].
  destruct parent as [p|].
  - destruct Hp as [pn Hp].
    assert (Hne : this ≠ p) by congruence.
    rewrite (load_Some _ p pn);
      [|by rewrite !lookup_insert_ne by done].
    cbn [rbind].
    destruct (ltb v (Node.value pn)); [|destruct (gtb v (Node.value pn))];
      eexists _, (Node.mk v (Some p) l r hgt);
      (split; [done|]); (split; [|exact Hcases]).
    + rewrite lookup_insert_ne by done. by rewrite lookup_insert_eq.
    + rewrite lookup_insert_ne by done. by rewrite lookup_insert_eq.
    + by rewrite lookup_insert_eq.
  - eexists _, (Node.mk v None l r hgt).
    split; [done|]. split; [|exact Hcases]. by rewrite lookup_insert_eq.
Qed.

End HeightFacts.

Lemma link_sets_parent_child_witness :
  ∃ h', Node_link heap_one 2 3%Z (Some 1%positive) None None 7%Z = Ok h' ∧
    (ltb 3%Z (Node.value (leaf 5 None)) = true →
       h' !! 1%positive = Some (Node.set_left (leaf 5 None) (Some 2%positive))) ∧
    (gtb 3%Z (Node.value (leaf 5 None)) = true →
       h' !! 1%positive = Some (Node.set_right (leaf 5 None) (Some 2%positive))) ∧
    (3%Z = Node.value (leaf 5 None) → h' !! 1%positive = Some (leaf 5 None)).
Proof.
  apply (link_sets_parent_child heap_one 2 3%Z 1 (leaf 5 None) None None 7%Z).
  - reflexivity.
  - reflexivity.
  - exact I.
  - exact I.
Defined.

Lemma link_stores_height_witness :
  ∃ h' n,
    Node_link heap_two 3 8%Z (Some 1%positive) (Some 2%positive) None 9%Z
      = Ok h' ∧ h' !! 3%positive = Some n ∧
    (Some 2%positive = None → @None positive = None → Node.height n = 0%Z) ∧
    (∀ a na, Some 2%positive = Some a → @None positive = None →
       heap_two !! a = Some na →
       Node.height n = size_add 1 (Node.height na)) ∧
    (∀ b nb, Some 2%positive = None → @None positive = Some b →
       heap_two !! b = Some nb →
       Node.height n = size_add 1 (Node.height nb)) ∧
    (∀ a na b nb, Some 2%positive = Some a → @None positive = Some b →
       heap_two !! a = Some na → heap_two !! b = Some nb →
       Node.height n = size_add 1 (Z.max (Node.height na) (Node.height nb))).
Proof.
  apply (link_stores_height heap_two 3 8%Z (Some 1%positive)
           (Some 2%positive) None 9%Z).
  - reflexivity.
  - eexists. reflexivity.
  - eexists. reflexivity.
  - exact I.
Defined.

(** ** Destroying nodes *)

Section DestroyFacts.
Context {T : Type} `{Ordered T}.
Context {Alloc NodeAlloc : Type} `{EqDecision Alloc} `{EqDecision NodeAlloc}.
Import BinaryTree.

Lemma ptr_eqb_true (p q : ptr) : ptr_eqb p q = true ↔ p = q.
Proof. unfold ptr_eqb. apply bool_decide_eq_true. Qed.

Lemma ptr_eqb_false (p q : ptr) : ptr_eqb p q = false ↔ p ≠ q.
Proof. unfold ptr_eqb. apply bool_decide_eq_false. Qed.

(** C3: for a node that is its parent's left child, or its parent's right
    child (and not also the left one), [_destroy_node] sets that link of
    the parent to null, leaves the sibling link and every other field of
    the parent as they were, removes the node from the heap, leaves all
    other nodes alone and returns the parent; for a null argument it changes
    nothing and returns null. *)
Theorem destroy_child_unlinks (t : binary_tree Alloc NodeAlloc) (h : heap T)
    a n p pn :
  h !! a = Some n → Node.parent n = Some p → h !! p = Some pn → p ≠ a →
  Node.left pn = Some a ∨ (Node.right pn = Some a ∧ Node.left pn ≠ Some a) →
  (∃ h', _destroy_node t h (Some a) = Ok (t, h', Some p) ∧
     h' !! a = None ∧
     (Node.left pn = Some a →
        h' !! p = Some (Node.mk (Node.value pn) (Node.parent pn) None
                          (Node.right pn) (Node.height pn))) ∧
     (Node.left pn ≠ Some a →
        h' !! p = Some (Node.mk (Node.value pn) (Node.parent pn)
                          (Node.left pn) None (Node.height pn))) ∧
     (∀ b, b ≠ a → b ≠ p → h' !! b = h !! b)) ∧
  _destroy_node t h None = Ok (t, h, None).
Proof.
  intros Ha Hpar Hp Hne Hside. split; [|done].
  unfold _destroy_node. rewrite (load_Some _ _ _ Ha). cbn [rbind].
  rewrite Hpar. rewrite (load_Some _ _ _ Hp). cbn [rbind].
  destruct (ptr_eqb (Node.left pn) (Some a)) eqn:Hl.
  - apply ptr_eqb_true in Hl. eexists. split; [done|].
    split; [by rewrite lookup_delete_eq|]. split; [|split].
    + intros _. rewrite lookup_delete_ne by done. by rewrite lookup_insert_eq.
    + intros Hn. by destruct Hn.
    + intros b Hba Hbp. rewrite lookup_delete_ne by done.
      by rewrite lookup_insert_ne.
  - apply ptr_eqb_false in Hl.
    destruct Hside as [Hside|[Hr _]]; [done|].
    apply ptr_eqb_true in Hr. rewrite Hr.
    eexists. split; [done|].
    split; [by rewrite lookup_delete_eq|]. split; [|split].
    + intros Hn. by destruct Hl.
    + intros _. rewrite lookup_delete_ne by done. by rewrite lookup_insert_eq.
    + intros b Hba Hbp. rewrite lookup_delete_ne by done.
      by rewrite lookup_insert_ne.
Qed.

(** C4, as the code has it: for a node with a null parent [_destroy_node]
    removes the node from the heap and returns null, and it leaves the
    tree object as it was, so a [root] that designated the node still holds
    its address afterwards. *)
Theorem destroy_root_returns_null (t : binary_tree Alloc NodeAlloc)
    (h : heap T) a n :
  h !! a = Some n → Node.parent n = None → root t = Some a →
  ∃ t' h', _destroy_node t h (root t) = Ok (t', h', None) ∧
    h' = delete a h ∧ h' !! a = None ∧
    root t' = Some a ∧ sz t' = sz t.
Proof.
  intros Ha Hpar Hroot. rewrite Hroot.
  unfold _destroy_node. rewrite (load_Some _ _ _ Ha). cbn [rbind].
  rewrite Hpar. exists t, (delete a h).
  repeat split; [by rewrite lookup_delete_eq|done].
Qed.

(** C10: for a node with a non-null parent neither of whose child pointers
    designates it, [_destroy_node] leaves the parent (and every other node)
    as it was, still removes the node from the heap, and returns the node's
    stored parent pointer. *)
Theorem destroy_unlinked_node (t : binary_tree Alloc NodeAlloc) (h : heap T)
    a n p pn :
  h !! a = Some n → Node.parent n = Some p → h !! p = Some pn →
  Node.left pn ≠ Some a → Node.right pn ≠ Some a →
  ∃ h', _destroy_node t h (Some a) = Ok (t, h', Some p) ∧
    h' !! a = None ∧
    (p ≠ a → h' !! p = Some pn) ∧
    (∀ b, b ≠ a → h' !! b = h !! b).
Proof.
  intros Ha Hpar Hp Hl Hr.
  unfold _destroy_node. rewrite (load_Some _ _ _ Ha). cbn [rbind].
  rewrite Hpar. rewrite (load_Some _ _ _ Hp). cbn [rbind].
  apply ptr_eqb_false in Hl, Hr. rewrite Hl, Hr.
  exists (delete a h). split; [done|].
  split; [by rewrite lookup_delete_eq|]. split.
  - intros Hne. by rewrite lookup_delete_ne.
  - intros b Hb. by rewrite lookup_delete_ne.
Qed.

End DestroyFacts.

Lemma destroy_child_unlinks_witness :
  (∃ h', BinaryTree._destroy_node (tree_at_1 2) heap_two (Some 2%positive)
           = Ok (tree_at_1 2, h', Some 1%positive) ∧
     h' !! 2%positive = None ∧
     (Some 2%positive = Some 2%positive →
        h' !! 1%positive = Some (Node.mk 5%Z None None None 1%Z)) ∧
     (Some 2%positive ≠ Some 2%positive →
        h' !! 1%positive = Some (Node.mk 5%Z None (Some 2%positive) None 1%Z)) ∧
     (∀ b, b ≠ 2%positive → b ≠ 1%positive → h' !! b = heap_two !! b)) ∧
  BinaryTree._destroy_node (tree_at_1 2) heap_two None
    = Ok (tree_at_1 2, heap_two, None).
Proof.
  apply (destroy_child_unlinks (tree_at_1 2) heap_two 2 (leaf 3 (Some 1%positive))
           1 (Node.mk 5%Z None (Some 2%positive) None 1%Z)).
  - reflexivity.
  - reflexivity.
  - reflexivity.
  - discriminate.
  - left. reflexivity.
Defined.

Lemma destroy_root_returns_null_witness :
  ∃ t' h', BinaryTree._destroy_node (tree_at_1 1) heap_one (root (tree_at_1 1))
             = Ok (t', h', None) ∧
    h' = delete 1%positive heap_one ∧ h' !! 1%positive = None ∧
    root t' = Some 1%positive ∧ sz t' = sz (tree_at_1 1).
Proof.
  apply (destroy_root_returns_null (tree_at_1 1) heap_one 1 (leaf 5 None)).
  - reflexivity.
  - reflexivity.
  - reflexivity.
Defined.

(** C4, as stated, fails: after [_destroy_node] on the only node of a tree
    the tree's [root] is still the address of that node, not null. *)
Lemma destroy_root_counterexample :
  heap_one !! 1%positive = Some (leaf 5 None) ∧
  BinaryTree._destroy_node (tree_at_1 1) heap_one (root (tree_at_1 1))
    = Ok (tree_at_1 1, ∅, None) ∧
  root (tree_at_1 1) ≠ None.
Proof. split; [reflexivity|]. split; [reflexivity|discriminate]. Qed.

Lemma destroy_unlinked_node_witness :
  ∃ h', BinaryTree._destroy_node (tree_at_1 1) heap_orphan (Some 2%positive)
          = Ok (tree_at_1 1, h', Some 1%positive) ∧
    h' !! 2%positive = None ∧
    (1%positive ≠ 2%positive → h' !! 1%positive = Some (leaf 5 None)) ∧
    (∀ b, b ≠ 2%positive → h' !! b = heap_orphan !! b).
Proof.
  apply (destroy_unlinked_node (tree_at_1 1) heap_orphan 2
           (leaf 3 (Some 1%positive)) 1 (leaf 5 None)).
  - reflexivity.
  - reflexivity.
  - reflexivity.
  - discriminate.
  - discriminate.
Defined.

(** ** The size counter *)

Section SizeFacts.
Context {T : Type} `{Ordered T}.
Context {Alloc NodeAlloc : Type} `{EqDecision Alloc} `{EqDecision NodeAlloc}.
Import BinaryTree.

Lemma rbind_Ok {A B} (m : result A) (k : A → result B) b :
  rbind m k = Ok b → ∃ a, m = Ok a ∧ k a = Ok b.
Proof. destruct m; cbn; [eauto|discriminate..]. Qed.

Lemma _construct_node_tree (t t' : binary_tree Alloc NodeAlloc)
    (h h' : heap T) v r :
  _construct_node t h v = Ok (t', h', r) → t' = t.
Proof. unfold _construct_node. by intros [= <- _ _]. Qed.

Lemma _construct_node_link_tree (t t' : binary_tree Alloc NodeAlloc)
    (h h' : heap T) v p l r k q :
  _construct_node_link t h v p l r k = Ok (t', h', q) → t' = t.
Proof.
  unfold _construct_node_link. intros Hr.
  apply rbind_Ok in Hr as (h1 & _ & Hr). by injection Hr as <- _ _.
Qed.

Lemma _destroy_node_tree (t t' : binary_tree Alloc NodeAlloc)
    (h h' : heap T) p q :
  _destroy_node t h p = Ok (t', h', q) → t' = t.
Proof.
  unfold _destroy_node. destruct p as [a|]; [|by intros [= <- _ _]].
  intros Hr. apply rbind_Ok in Hr as (n & _ & Hr).
  destruct (Node.parent n) as [p|]; [|by injection Hr as <- _ _].
  apply rbind_Ok in Hr as (pn & _ & Hr). by injection Hr as <- _ _.
Qed.

Lemma run_op_tree (o : node_op) (t t' : binary_tree Alloc NodeAlloc)
    (h h' : heap T) :
  run_op o t h = Ok (t', h') → t' = t.
Proof.
  destruct o as [v|v p l r k|p]; cbn [run_op]; intros Hr;
    apply rbind_Ok in Hr as ([[t1 h1] q] & Hcall & Hr);
    injection Hr as <- _.
  - by apply _construct_node_tree in Hcall.
  - by apply _construct_node_link_tree in Hcall.
  - by apply _destroy_node_tree in Hcall.
Qed.

(** C5, as the code has it: a sequence of node constructions and
    [_destroy_node] calls leaves the tree object untouched; [size()]
    afterwards is the counter as it was before, and [root] is unchanged,
    however many nodes were linked or destroyed. *)
Theorem node_ops_keep_size (os : list node_op)
    (t t' : binary_tree Alloc NodeAlloc) (h h' : heap T) :
  run_ops os t h = Ok (t', h') →
  size t' = size t ∧ root t' = root t ∧ t' = t.
Proof.
  revert t h. induction os as [|o os IH]; intros t h; cbn [run_ops].
  - by intros [= <- _].
  - intros Hr. apply rbind_Ok in Hr as ([t1 h1] & Hop & Hr).
    apply run_op_tree in Hop as ->. cbn in Hr. by apply IH in Hr.
Qed.

End SizeFacts.

Lemma node_ops_keep_size_witness :
  BinaryTree.run_ops
      [BinaryTree.OpConstructLink 3%Z (Some 1%positive) None None 0%Z;
       BinaryTree.OpDestroy (Some 2%positive)]
      (tree_at_1 1) heap_one
    = Ok (tree_at_1 1, heap_one) ∧
  BinaryTree.size (tree_at_1 1) = BinaryTree.size (tree_at_1 1) ∧
  root (tree_at_1 1) = root (tree_at_1 1) ∧ tree_at_1 1 = tree_at_1 1.
Proof.
  assert (Hrun : BinaryTree.run_ops
      [BinaryTree.OpConstructLink 3%Z (Some 1%positive) None None 0%Z;
       BinaryTree.OpDestroy (Some 2%positive)]
      (tree_at_1 1) heap_one
    = Ok (tree_at_1 1, heap_one)) by (vm_compute; reflexivity).
  split; [exact Hrun|].
  exact (node_ops_keep_size _ _ _ _ _ Hrun).
Defined.

(** C5, as stated, fails: in a two-node tree whose counter is right,
    [_destroy_node] on the leaf leaves one reachable node and a counter
    of two. *)
Lemma size_consistency_counterexample :
  BinaryTree.size (tree_at_1 2)
    = BinaryTree.reachable_count (tree_at_1 2) heap_two ∧
  BinaryTree.run_ops [BinaryTree.OpDestroy (Some 2%positive)]
      (tree_at_1 2) heap_two
    = Ok (tree_at_1 2, {[ 1%positive := Node.mk 5%Z None None None 1%Z ]}) ∧
  BinaryTree.size (tree_at_1 2) = 2%Z ∧
  BinaryTree.reachable_count (tree_at_1 2)
    {[ 1%positive := Node.mk 5%Z None None None 1%Z ]} = 1%Z.
Proof. repeat split; vm_compute; reflexivity. Qed.

(** ** Dereferencing *)

Section DerefFacts.
Context {T : Type} {NodeAlloc : Type}.

(** C6: dereferencing (with [*], [->] or [value()]) an iterator at the null
    position or an empty node handle throws a runtime error; dereferencing a
    position that designates an allocated node returns the value stored in
    that node. *)
Theorem deref_null_throws (h : heap T) (a : addr) (n : Node.t T)
    (al : NodeAlloc) :
  h !! a = Some n →
  (const_iterator.deref h (const_iterator.mk None)
     = Throw "segmentation fault" ∧
   const_iterator.arrow h (const_iterator.mk None)
     = Throw "segmentation fault" ∧
   iterator.deref h (iterator.mk None) = Throw "segmentation fault" ∧
   iterator.arrow h (iterator.mk None) = Throw "segmentation fault" ∧
   const_reverse_iterator.deref h
     (const_reverse_iterator.mk (const_iterator.mk None))
     = Throw "segmentation fault" ∧
   reverse_iterator.deref h (reverse_iterator.mk (iterator.mk None))
     = Throw "segmentation fault" ∧
   node_type.deref h (node_type.mk None al) = Throw "segmentation fault" ∧
   node_type.arrow h (node_type.mk None al) = Throw "segmentation fault" ∧
   node_type.value h (node_type.mk None al) = Throw "segmentation fault") ∧
  (const_iterator.deref h (const_iterator.mk (Some a)) = Ok (Node.value n) ∧
   (const_iterator.arrow h (const_iterator.mk (Some a)) = Ok a ∧
    value_at h a = Ok (Node.value n)) ∧
   iterator.deref h (iterator.mk (Some a)) = Ok (Node.value n) ∧
   iterator.arrow h (iterator.mk (Some a)) = Ok a ∧
   const_reverse_iterator.deref h
     (const_reverse_iterator.mk (const_iterator.mk (Some a)))
     = Ok (Node.value n) ∧
   reverse_iterator.deref h (reverse_iterator.mk (iterator.mk (Some a)))
     = Ok (Node.value n) ∧
   node_type.deref h (node_type.mk (Some a) al) = Ok (Node.value n) ∧
   node_type.arrow h (node_type.mk (Some a) al) = Ok a ∧
   node_type.value h (node_type.mk (Some a) al) = Ok (Node.value n)).
Proof.
  intros Ha. split; [by repeat split|].
  unfold const_reverse_iterator.deref, reverse_iterator.deref,
    const_iterator.deref, const_iterator.arrow, iterator.deref,
    iterator.arrow, node_type.deref, node_type.arrow, node_type.value,
    value_at.
  cbn. unfold load. rewrite Ha. by repeat split.
Qed.

End DerefFacts.

Lemma deref_null_throws_witness :
  heap_one !! 1%positive = Some (leaf 5 None) ∧
  const_iterator.deref heap_one (const_iterator.mk None)
    = Throw "segmentation fault" ∧
  node_type.value heap_one (node_type.mk None tt) = Throw "segmentation fault" ∧
  iterator.deref heap_one (iterator.mk (Some 1%positive)) = Ok 5%Z.
Proof.
  assert (Ha : heap_one !! 1%positive = Some (leaf 5 None)) by reflexivity.
  pose proof (deref_null_throws heap_one 1 (leaf 5 None) tt Ha) as [Hn Hv].
  split; [exact Ha|]. split; [apply Hn|]. split; [apply Hn|apply Hv].
Defined.

(** ** Comparing trees *)

Section EqFacts.
Context {T : Type} `{Ordered T}.
Context {Alloc NodeAlloc : Type} `{EqDecision Alloc} `{EqDecision NodeAlloc}.
Import BinaryTree.

(** C8, as the code has it: [operator==] on trees is member-wise.  Two tree
    objects compare equal exactly when their [root] pointers are the same
    address and their allocators and size counters are equal; no node is
    read, so trees rooted at different nodes compare unequal whatever they
    hold.  [operator==] on nodes is member-wise too: the values, the three
    link pointers (by address) and the heights. *)
Theorem tree_eqb_memberwise (a b : binary_tree Alloc NodeAlloc)
    (n m : Node.t T) :
  (tree_eqb a b = true ↔
     root a = root b ∧ allocator a = allocator b ∧
     node_allocator a = node_allocator b ∧ sz a = sz b) ∧
  (Node.eqb n m = true ↔
     Node.value n = Node.value m ∧ Node.parent n = Node.parent m ∧
     Node.left n = Node.left m ∧ Node.right n = Node.right m ∧
     Node.height n = Node.height m).
Proof.
  unfold tree_eqb, Node.eqb.
  rewrite !andb_true_iff, !ptr_eqb_true, !bool_decide_eq_true, !Z.eqb_eq.
  tauto.
Qed.

End EqFacts.

(** C8, as stated, fails: two single-node trees whose nodes agree in every
    field (the trees are the same node by node) compare unequal, because
    their roots are two different addresses. *)
Lemma tree_eqb_counterexample :
  heap_twins !! 1%positive = Some (leaf 5 None) ∧
  heap_twins !! 2%positive = Some (leaf 5 None) ∧
  BinaryTree.spec_tree_eqb heap_twins (tree_at_1 1) (tree_at_2 1) = true ∧
  BinaryTree.tree_eqb (tree_at_1 1) (tree_at_2 1) = false.
Proof. repeat split; vm_compute; reflexivity. Qed.

(** ** Moving node handles *)

Section HandleFacts.
Context {T : Type} {NodeAlloc : Type}.
Context (alloc_default : NodeAlloc).
Import node_type.

Lemma get_Some (hs : gmap positive (node_type.t NodeAlloc)) x o :
  hs !! x = Some o → get hs x = Ok o.
Proof. intros Hx. unfold get. by rewrite Hx. Qed.

(** The assignments that follow the release of the destination's old node
    in both move operations. *)
Lemma move_tail (hs : gmap positive (node_type.t NodeAlloc)) this other d o :
  this ≠ other → hs !! this = Some d → hs !! other = Some o →
  ∃ hs',
    (hs1 ←r set_node hs this (node o);
     hs2 ←r set_node hs1 other None;
     o' ←r get hs2 other;
     hs3 ←r set_allocator hs2 this (allocator o');
     set_allocator hs3 other alloc_default) = Ok hs' ∧
    hs' !! this = Some (mk (node o) (allocator o)) ∧
    hs' !! other = Some (mk None alloc_default) ∧
    (∀ x, x ≠ this → x ≠ other → hs' !! x = hs !! x).
Proof.
  intros Hne Hd Ho.
  unfold set_node at 1. rewrite (get_Some _ _ _ Hd). cbn [rbind].
  unfold set_node at 1.
  rewrite (get_Some _ other o) by (by rewrite lookup_insert_ne).
  cbn [rbind].
  rewrite (get_Some _ other (mk None (allocator o)))
    by (by rewrite lookup_insert_eq).
  cbn [rbind allocator].
  unfold set_allocator at 1.
  rewrite (get_Some _ this (mk (node o) (allocator d)))
    by (rewrite lookup_insert_ne by done; by rewrite lookup_insert_eq).
  cbn [rbind node].
  unfold set_allocator.
  rewrite (get_Some _ other (mk None (allocator o)))
    by (rewrite lookup_insert_ne by done; by rewrite lookup_insert_eq).
  cbn [rbind node].
  eexists. split; [done|]. split; [|split].
  - rewrite lookup_insert_ne by done. by rewrite lookup_insert_eq.
  - by rewrite lookup_insert_eq.
  - intros x Hx1 Hx2. by rewrite !lookup_insert_ne by done.
Qed.

(** C9: move construction from a handle, and move assignment from a handle
    to another handle object, leave the destination holding the node
    pointer the source held and the source empty.  Move assignment first
    releases the node the destination held; the node received is still
    allocated unless it was that same node. *)
Theorem move_transfers_node (hs : gmap positive (node_type.t NodeAlloc))
    (h : heap T) (this other new : addr) (d o : node_type.t NodeAlloc)
    (junk : ptr) :
  hs !! other = Some o → hs !! this = Some d → this ≠ other →
  hs !! new = None → valid_ptr h (node d) →
  (∃ hs', move_construct alloc_default hs h new other junk = Ok (hs', h) ∧
     (node <$> hs' !! new) = Some (node o) ∧
     (empty <$> hs' !! other) = Some true) ∧
  (∃ hs' h', move_assign alloc_default hs h this other = Ok (hs', h') ∧
     (node <$> hs' !! this) = Some (node o) ∧
     (empty <$> hs' !! other) = Some true ∧
     h' = match node d with Some a => delete a h | None => h end ∧
     (∀ a, node o = Some a → node d ≠ Some a → h' !! a = h !! a)).
Proof.
  intros Ho Hd Hne Hnew Hvalid.
  assert (Hne' : new ≠ other) by congruence.
  split.
  - unfold move_construct.
    rewrite (get_Some _ other o) by (by rewrite lookup_insert_ne).
    cbn [rbind].
    destruct (node o) as [a|] eqn:Hno.
    + destruct (move_tail (<[new := mk junk alloc_default]> hs) new other
        (mk junk alloc_default) o Hne') as (hs' & Hrun & Hthis & Hother & _).
      { by rewrite lookup_insert_eq. }
      { by rewrite lookup_insert_ne. }
      rewrite Hno in Hrun, Hthis.
      exists hs'. split.
      * revert Hrun. generalize (set_node
          (<[new := mk junk alloc_default]> hs) new (Some a)).
        intros [hs1| |]; cbn [rbind]; try discriminate.
        destruct (set_node hs1 other None) as [hs2| |];
          cbn [rbind]; try discriminate.
        destruct (get hs2 other) as [o'| |]; cbn [rbind]; try discriminate.
        destruct (set_allocator hs2 new (allocator o')) as [hs3| |];
          cbn [rbind]; try discriminate.
        by intros ->.
      * rewrite Hthis, Hother. done.
    + unfold set_node. rewrite (get_Some _ new (mk junk alloc_default))
        by (by rewrite lookup_insert_eq).
      cbn [rbind]. eexists. split; [done|].
      rewrite lookup_insert_eq. rewrite lookup_insert_ne by done.
      rewrite lookup_insert_ne by done.
      rewrite Ho. cbn. unfold empty. by rewrite Hno.
  - unfold move_assign, _destroy. rewrite (get_Some _ _ _ Hd). cbn [rbind].
    destruct (node d) as [a|] eqn:Hnd.
    + destruct Hvalid as [n Hn]. rewrite (load_Some _ _ _ Hn). cbn [rbind].
      unfold set_node at 1. rewrite (get_Some _ _ _ Hd). cbn [rbind fst snd].
      rewrite (get_Some _ other o) by (by rewrite lookup_insert_ne).
      cbn [rbind].
      destruct (move_tail (<[this := mk None (allocator d)]> hs) this other
        (mk None (allocator d)) o Hne) as (hs' & Hrun & Hthis & Hother & _).
      { by rewrite lookup_insert_eq. }
      { by rewrite lookup_insert_ne. }
      exists hs', (delete a h). split.
      * revert Hrun. generalize (set_node
          (<[this := mk None (allocator d)]> hs) this (node o)).
        intros [hs1| |]; cbn [rbind]; try discriminate.
        destruct (set_node hs1 other None) as [hs2| |];
          cbn [rbind]; try discriminate.
        destruct (get hs2 other) as [o'| |]; cbn [rbind]; try discriminate.
        destruct (set_allocator hs2 this (allocator o')) as [hs3| |];
          cbn [rbind]; try discriminate.
        by intros ->.
      * rewrite Hthis, Hother. repeat split; [done..|].
        intros b _ Hb. rewrite lookup_delete_ne; [done|congruence].
    + cbn [rbind fst snd]. rewrite (get_Some _ _ _ Ho). cbn [rbind].
      destruct (move_tail hs this other d o Hne Hd Ho)
        as (hs' & Hrun & Hthis & Hother & _).
      exists hs', h. split.
      * revert Hrun. generalize (set_node hs this (node o)).
        intros [hs1| |]; cbn [rbind]; try discriminate.
        destruct (set_node hs1 other None) as [hs2| |];
          cbn [rbind]; try discriminate.
        destruct (get hs2 other) as [o'| |]; cbn [rbind]; try discriminate.
        destruct (set_allocator hs2 this (allocator o')) as [hs3| |];
          cbn [rbind]; try discriminate.
        by intros ->.
      * rewrite Hthis, Hother. by repeat split.
Qed.

(** Moving a handle onto itself releases the node it held and leaves the
    handle empty. *)
Lemma move_assign_self (hs : gmap positive (node_type.t NodeAlloc))
    (h : heap T) (x : addr) (d : node_type.t NodeAlloc) a n :
  hs !! x = Some d → node d = Some a → h !! a = Some n →
  move_assign alloc_default hs h x x
    = Ok (<[x := mk None alloc_default]> hs, delete a h).
Proof.
  intros Hx Hd Ha. unfold move_assign, _destroy.
  rewrite (get_Some _ _ _ Hx). cbn [rbind]. rewrite Hd.
  rewrite (load_Some _ _ _ Ha). cbn [rbind].
  unfold set_node, set_allocator.
  rewrite (get_Some _ _ _ Hx). cbn [rbind fst snd].
  repeat (rewrite (get_Some _ x _ (lookup_insert_eq _ _ _)); cbn [rbind node allocator]).
  by rewrite !insert_insert_eq.
Qed.

End HandleFacts.

Lemma move_transfers_node_witness :
  (∃ hs', node_type.move_construct tt two_handles heap_one 12 11 (Some 7%positive)
            = Ok (hs', heap_one) ∧
     (node_type.node <$> hs' !! 12%positive) = Some (Some 1%positive) ∧
     (node_type.empty <$> hs' !! 11%positive) = Some true) ∧
  (∃ hs' h', node_type.move_assign tt two_handles heap_one 10 11 = Ok (hs', h') ∧
     (node_type.node <$> hs' !! 10%positive) = Some (Some 1%positive) ∧
     (node_type.empty <$> hs' !! 11%positive) = Some true ∧
     h' = heap_one ∧
     (∀ a, Some 1%positive = Some a → @None positive ≠ Some a →
        h' !! a = heap_one !! a)).
Proof.
  apply (move_transfers_node tt two_handles heap_one 10 11 12
           (node_type.mk None tt) (node_type.mk (Some 1%positive) tt)
           (Some 7%positive)).
  - reflexivity.
  - reflexivity.
  - discriminate.
  - reflexivity.
  - exact I.
Defined.

(** ** Stepping forwards and backwards *)

Lemma flip_flip (s : side) : flip (flip s) = s.
Proof. by destruct s. Qed.

Lemma side_cases (s s0 : side) : s0 = s ∨ s0 = flip s.
Proof. destruct s, s0; auto. Qed.

Section SteppingFacts.
Context {T : Type}.
Context (h : heap T) (depth : addr → nat).
Hypothesis Hts : tree_shaped h depth.

Lemma other_child_differs s a n c :
  h !! a = Some n → child (flip s) n = Some c →
  ptr_eqb (child s n) (Some c) = false.
Proof.
  intros Ha Hc. apply ptr_eqb_false.
  pose proof (ts_distinct h depth Hts (flip s) a n c Ha Hc) as Hd.
  by rewrite flip_flip in Hd.
Qed.

Lemma parent_depth c m a :
  h !! c = Some m → Node.parent m = Some a →
  ∃ n s, h !! a = Some n ∧ child s n = Some c ∧ depth c = S (depth a).
Proof.
  intros Hc Hp.
  destruct (ts_parent h depth Hts c m a Hc Hp) as (n & s & Ha & Hs).
  destruct (ts_child h depth Hts s a n c Ha Hs) as (m' & _ & _ & Hd).
  by exists n, s.
Qed.

(** A node at depth [d] has [d] ancestors, all of them distinct. *)
Lemma ancestors_chain (d : nat) : ∀ a n,
  h !! a = Some n → depth a = d →
  ∃ l : list addr, NoDup l ∧ length l = S d ∧
    ∀ x, x ∈ l → is_Some (h !! x) ∧ depth x ≤ d.
Proof.
  induction d as [|d IH]; intros a n Ha Hd.
  - exists [a]. split; [apply NoDup_singleton|]. split; [done|].
    intros x ->%list_elem_of_singleton. split; [by eexists|lia].
  - destruct (Node.parent n) as [p|] eqn:Hp.
    + destruct (parent_depth a n p Ha Hp) as (pn & s & Hpn & _ & Hdp).
      destruct (IH p pn Hpn ltac:(lia)) as (l & Hnd & Hlen & Hl).
      exists (a :: l). split; [|split].
      * apply NoDup_cons. split; [|done].
        intros Hin. apply Hl in Hin as [_ Hle]. lia.
      * cbn. by rewrite Hlen.
      * intros x [->|Hx]%elem_of_cons.
        -- split; [by eexists|lia].
        -- apply Hl in Hx as [? ?]. split; [done|lia].
    + pose proof (ts_root h depth Hts a n Ha Hp). lia.
Qed.

Lemma depth_lt_size a n : h !! a = Some n → depth a < size h.
Proof.
  intros Ha.
  destruct (ancestors_chain (depth a) a n Ha eq_refl) as (l & Hnd & Hlen & Hl).
  assert (Hsub : l ⊆+ elements (dom h)).
  { apply NoDup_submseteq; [done|]. intros x Hx.
    apply elem_of_elements, elem_of_dom. by apply Hl. }
  apply submseteq_length in Hsub.
  assert (length (elements (dom h)) = size h) as Hsz.
  { rewrite <- size_dom. done. }
  lia.
Qed.

Lemma descend_mono s : ∀ f f' a r,
  descend s f h a = Some r → f ≤ f' → descend s f' h a = Some r.
Proof.
  induction f as [|f IH]; intros f' a r Hd Hle; [discriminate|].
  destruct f' as [|f']; [lia|]. cbn in *.
  destruct (h !! a) as [n|]; [|done].
  destruct (child s n) as [c|]; [|done].
  apply IH; [done|lia].
Qed.

Lemma descend_total s : ∀ f a n,
  h !! a = Some n → size h ≤ f + depth a →
  ∃ d, descend s f h a = Some (Ok d).
Proof.
  induction f as [|f IH]; intros a n Ha Hle.
  - pose proof (depth_lt_size a n Ha). lia.
  - cbn. rewrite Ha. destruct (child s n) as [c|] eqn:Hc; [|by eexists].
    destruct (ts_child h depth Hts s a n c Ha Hc) as (m & Hm & _ & Hd).
    apply (IH c m Hm). lia.
Qed.

Lemma ascend_total s : ∀ f a n,
  h !! a = Some n → depth a < f →
  ∃ r, ascend s f h a = Some (Ok r).
Proof.
  induction f as [|f IH]; intros a n Ha Hlt; [lia|].
  cbn. rewrite Ha. destruct (Node.parent n) as [p|] eqn:Hp; [|by eexists].
  destruct (parent_depth a n p Ha Hp) as (pn & s0 & Hpn & _ & Hd).
  rewrite Hpn. destruct (ptr_eqb (child s pn) (Some a)); [by eexists|].
  apply (IH p pn Hpn). lia.
Qed.

(** Climbing back from the end of a descent retraces it. *)
Lemma descend_ascend s : ∀ f c q,
  descend (flip s) f h c = Some (Ok q) →
  ∃ nq k, h !! q = Some nq ∧ child (flip s) nq = None ∧
    depth q = depth c + k ∧
    ∀ g, ascend s (g + k) h q = ascend s g h c.
Proof.
  induction f as [|f IH]; intros c q Hd; [discriminate|].
  cbn in Hd. destruct (h !! c) as [n|] eqn:Hc; [|discriminate].
  destruct (child (flip s) n) as [c'|] eqn:Hch.
  - destruct (IH c' q Hd) as (nq & k & Hq & Hstop & Hdep & Hup).
    destruct (ts_child h depth Hts (flip s) c n c' Hc Hch)
      as (m & Hm & Hpar & Hdc).
    exists nq, (S k). split; [done|]. split; [done|]. split; [lia|].
    intros g. replace (g + S k) with (S g + k) by lia. rewrite Hup.
    cbn. rewrite Hm, Hpar, Hc.
    by rewrite (other_child_differs s c n c' Hc Hch).
  - injection Hd as <-. exists n, 0. split; [done|]. split; [done|].
    split; [lia|]. intros g. by rewrite Nat.add_0_r.
Qed.

(** Descending from where a climb arrived retraces it. *)
Lemma ascend_descend s : ∀ f x q,
  ascend (flip s) f h x = Some (Ok (Some q)) →
  ∃ nq c k, h !! q = Some nq ∧ child (flip s) nq = Some c ∧
    depth x = depth c + k ∧
    ∀ g r, descend s g h x = Some r → descend s (g + k) h c = Some r.
Proof.
  induction f as [|f IH]; intros x q Ha; [discriminate|].
  cbn in Ha. destruct (h !! x) as [n|] eqn:Hx; [|discriminate].
  destruct (Node.parent n) as [p|] eqn:Hp; [|discriminate].
  destruct (h !! p) as [pn|] eqn:Hpn; [|discriminate].
  destruct (ptr_eqb (child (flip s) pn) (Some x)) eqn:He.
  - injection Ha as <-. apply ptr_eqb_true in He.
    exists pn, x, 0. split; [done|]. split; [done|]. split; [lia|].
    intros g r Hr. by rewrite Nat.add_0_r.
  - apply ptr_eqb_false in He.
    destruct (IH p q Ha) as (nq & c & k & Hq & Hc & Hdep & Hdown).
    destruct (parent_depth x n p Hx Hp) as (pn' & s0 & Hpn' & Hs0 & Hd).
    assert (pn' = pn) as -> by congruence.
    assert (child s pn = Some x) as Hs.
    { destruct (side_cases s s0) as [->| ->]; [done|by destruct He]. }
    exists nq, c, (S k). split; [done|]. split; [done|]. split; [lia|].
    intros g r Hr. replace (g + S k) with (S g + k) by lia.
    apply Hdown. cbn. by rewrite Hpn, Hs.
Qed.

Lemma advance_total s a n : h !! a = Some n → ∃ r, advance s h a = Some (Ok r).
Proof.
  intros Ha. unfold advance. rewrite Ha.
  destruct (child s n) as [c|] eqn:Hc.
  - destruct (ts_child h depth Hts s a n c Ha Hc) as (m & Hm & _ & _).
    destruct (descend_total (flip s) (size h) c m Hm ltac:(lia)) as [d ->].
    by eexists.
  - apply (ascend_total (flip s) (size h) a n Ha).
    by apply (depth_lt_size a n).
Qed.

Lemma advance_round_trip s a b :
  advance s h a = Some (Ok (Some b)) →
  advance (flip s) h b = Some (Ok (Some a)).
Proof.
  unfold advance. destruct (h !! a) as [n|] eqn:Ha; [|discriminate].
  destruct (child s n) as [c|] eqn:Hc.
  - destruct (descend (flip s) (size h) h c) as [[d| |]|] eqn:Hd;
      try discriminate.
    intros [= ->].
    destruct (descend_ascend s _ c b Hd) as (nq & k & Hq & Hstop & Hdep & Hup).
    rewrite Hq, Hstop, flip_flip.
    pose proof (depth_lt_size b nq Hq) as Hlt.
    destruct (ts_child h depth Hts s a n c Ha Hc) as (m & Hm & Hpar & _).
    replace (size h) with (S (size h - k - 1) + k) by lia.
    rewrite Hup. cbn. rewrite Hm, Hpar, Ha.
    assert (ptr_eqb (child s n) (Some c) = true) as ->
      by (by apply ptr_eqb_true).
    done.
  - intros Hup.
    destruct (ascend_descend s _ a b Hup)
      as (nq & c & k & Hq & Hch & Hdep & Hdown).
    rewrite Hq, Hch, flip_flip.
    destruct (ts_child h depth Hts (flip s) b nq c Hq Hch)
      as (m & Hm & _ & Hdc).
    pose proof (depth_lt_size a n Ha) as Hlt.
    assert (descend s 1 h a = Some (Ok a)) as Hone.
    { cbn. by rewrite Ha, Hc. }
    apply Hdown in Hone.
    rewrite (descend_mono s (1 + k) (size h) c (Ok a) Hone); [done|lia].
Qed.

End SteppingFacts.

Lemma tree_shapedb_sound {T : Type} (h : heap T) (depth : addr → nat) :
  tree_shapedb h depth = true → tree_shaped h depth.
Proof.
  unfold tree_shapedb. rewrite forallb_forall. intros Hall.
  assert (Hnode : ∀ a n, h !! a = Some n → node_okb h depth (a, n) = true).
  { intros a n Ha. apply Hall, list_elem_of_In. by apply elem_of_map_to_list. }
  assert (Hchild : ∀ s a n c, h !! a = Some n → child s n = Some c →
    ∃ m, h !! c = Some m ∧ Node.parent m = Some a ∧ depth c = S (depth a) ∧
         child (flip s) n ≠ Some c).
  { intros s a n c Ha Hc. specialize (Hnode a n Ha).
    unfold node_okb in Hnode. cbn [fst snd] in Hnode.
    apply andb_true_iff in Hnode as [Hch _].
    apply andb_true_iff in Hch as [HL HR].
    assert (child_okb h depth s a n = true) as Hs by (by destruct s).
    unfold child_okb in Hs. rewrite Hc in Hs.
    destruct (h !! c) as [m|]; [|discriminate].
    apply andb_true_iff in Hs as [Hs Hne].
    apply andb_true_iff in Hs as [Hp Hd].
    exists m. split; [done|]. split; [by apply ptr_eqb_true|].
    split; [by apply Nat.eqb_eq|].
    apply negb_true_iff in Hne. by apply ptr_eqb_false. }
  split.
  - intros s a n c Ha Hc.
    destruct (Hchild s a n c Ha Hc) as (m & ? & ? & ? & _). by exists m.
  - intros c m a Hc Hp. specialize (Hnode c m Hc).
    unfold node_okb in Hnode. cbn [fst snd] in Hnode.
    apply andb_true_iff in Hnode as [_ Hpar].
    unfold parent_okb in Hpar. rewrite Hp in Hpar.
    destruct (h !! a) as [n|]; [|discriminate].
    apply orb_true_iff in Hpar as [Hl|Hr].
    + exists n, L. split; [done|]. by apply ptr_eqb_true.
    + exists n, R. split; [done|]. by apply ptr_eqb_true.
  - intros s a n c Ha Hc.
    by destruct (Hchild s a n c Ha Hc) as (m & _ & _ & _ & ?).
  - intros a n Ha Hp. specialize (Hnode a n Ha).
    unfold node_okb in Hnode. cbn [fst snd] in Hnode.
    apply andb_true_iff in Hnode as [_ Hpar].
    unfold parent_okb in Hpar. rewrite Hp in Hpar. by apply Nat.eqb_eq.
Qed.

(** C7: in a heap that holds trees, [successor()] and [predecessor()] return
    from every non-end position; when [successor()] yields a position (not
    the end), [predecessor()] from there returns to the original position,
    and when [predecessor()] yields a position, [successor()] from there
    returns to the original position. *)
Theorem successor_predecessor_round_trip {T : Type} (h : heap T) (a : addr) :
  well_formed h → is_Some (h !! a) →
  (∃ r, successor h a = Some (Ok r)) ∧
  (∃ r, predecessor h a = Some (Ok r)) ∧
  (∀ b, successor h a = Some (Ok (Some b)) →
        predecessor h b = Some (Ok (Some a))) ∧
  (∀ b, predecessor h a = Some (Ok (Some b)) →
        successor h b = Some (Ok (Some a))).
Proof.
  intros [depth Hts] [n Ha]. unfold successor, predecessor.
  split; [by apply (advance_total h depth Hts R a n)|].
  split; [by apply (advance_total h depth Hts L a n)|].
  split; intros b Hb.
  - by apply (advance_round_trip h depth Hts R a b).
  - by apply (advance_round_trip h depth Hts L a b).
Qed.

Lemma successor_predecessor_round_trip_witness :
  well_formed heap_three ∧ is_Some (heap_three !! 1%positive) ∧
  (∃ r, successor heap_three 1 = Some (Ok r)) ∧
  (∃ r, predecessor heap_three 1 = Some (Ok r)) ∧
  (∀ b, successor heap_three 1 = Some (Ok (Some b)) →
        predecessor heap_three b = Some (Ok (Some 1%positive))) ∧
  (∀ b, predecessor heap_three 1 = Some (Ok (Some b)) →
        successor heap_three b = Some (Ok (Some 1%positive))).
Proof.
  assert (Hwf : well_formed heap_three).
  { exists depth_three. apply tree_shapedb_sound. vm_compute. reflexivity. }
  assert (Ha : is_Some (heap_three !! 1%positive)).
  { eexists. reflexivity. }
  split; [exact Hwf|]. split; [exact Ha|].
  exact (successor_predecessor_round_trip heap_three 1 Hwf Ha).
Defined.

(** The in-order walk of the three-node tree: 3, 5, 8, end; and back. *)
Example stepping_heap_three :
  successor heap_three 2 = Some (Ok (Some 1%positive)) ∧
  successor heap_three 1 = Some (Ok (Some 3%positive)) ∧
  successor heap_three 3 = Some (Ok None) ∧
  predecessor heap_three 3 = Some (Ok (Some 1%positive)) ∧
  predecessor heap_three 1 = Some (Ok (Some 2%positive)) ∧
  predecessor heap_three 2 = Some (Ok None).
Proof. repeat split; vm_compute; reflexivity. Qed.

(** The five constructions of the scenario yield [heap_five]; the tree
    object itself is as [binary_tree()] left it.  Walking on from the
    leftmost node visits 1, 3, 4, 5, 8. *)
Example build_five_result :
  build_five = Ok (BinaryTree.binary_tree_new tt tt, heap_five, Some 5%positive) ∧
  descend L 5 heap_five 1 = Some (Ok 4%positive) ∧
  successor heap_five 4 = Some (Ok (Some 2%positive)) ∧
  successor heap_five 2 = Some (Ok (Some 5%positive)) ∧
  successor heap_five 5 = Some (Ok (Some 1%positive)) ∧
  successor heap_five 1 = Some (Ok (Some 3%positive)) ∧
  successor heap_five 3 = Some (Ok None).
Proof. repeat split; vm_compute; reflexivity. Qed.

(** * Further properties of the node store *)

Section NodeStoreMore.
Context {T : Type} `{Ordered T}.
Context {Alloc NodeAlloc : Type} `{EqDecision Alloc} `{EqDecision NodeAlloc}.
Import BinaryTree.

Lemma allocate_fresh (h : heap T) : h !! allocate h = None.
Proof. apply not_elem_of_dom. unfold allocate. apply is_fresh. Qed.

Lemma valid_ptr_ne (h : heap T) (p : ptr) a :
  valid_ptr h p → h !! a = None → p ≠ Some a.
Proof. intros Hv Ha ->. cbn in Hv. rewrite Ha in Hv. by destruct Hv. Qed.

(** X1: [_construct_node(value)] returns a pointer to storage that was not
    in use, now holding an unlinked leaf with the value; every node that
    existed is unchanged, the heap has one node more and the tree object is
    untouched. *)
Theorem construct_node_fresh_leaf (t : binary_tree Alloc NodeAlloc)
    (h : heap T) (v : T) :
  ∃ a h', _construct_node t h v = Ok (t, h', Some a) ∧
    h !! a = None ∧
    h' !! a = Some (Node.mk v None None None 0%Z) ∧
    (∀ b, b ≠ a → h' !! b = h !! b) ∧
    base.size h' = S (base.size h).
Proof.
  exists (allocate h), (Node_value h (allocate h) v).
  pose proof (allocate_fresh h) as Hf. unfold Node_value.
  split; [done|]. split; [done|]. split; [by rewrite lookup_insert_eq|].
  split; [|by apply map_size_insert_None].
  intros b Hb. by rewrite lookup_insert_ne.
Qed.

(** X2: destroying the node that [_construct_node(value)] just returned
    gives back the heap as it was, and returns null. *)
Theorem construct_destroy_round_trip (t : binary_tree Alloc NodeAlloc)
    (h : heap T) (v : T) :
  (r ←r _construct_node t h v; _destroy_node r.1.1 r.1.2 r.2)
    = Ok (t, h, None).
Proof.
  unfold _construct_node. cbn [rbind fst snd]. unfold _destroy_node, Node_value.
  rewrite (load_Some _ _ (Node.mk v None None None 0%Z))
    by (by rewrite lookup_insert_eq).
  cbn [rbind Node.parent].
  by rewrite delete_insert_id by apply allocate_fresh.
Qed.

(** The height computation of the linking constructor agrees with
    [height_rule]. *)
Lemma link_height (h : heap T) this v parent l r k :
  h !! this = None → valid_ptr h l → valid_ptr h r →
  ∃ hgt,
    match l, r with
    | Some a, Some b =>
        nl ←r load (<[this := Node.mk v parent l r k]> h) a;
        nr ←r load (<[this := Node.mk v parent l r k]> h) b;
        Ok (size_add 1 (Z.max (Node.height nl) (Node.height nr)))
    | Some a, None =>
        nl ←r load (<[this := Node.mk v parent l r k]> h) a;
        Ok (size_add 1 (Node.height nl))
    | None, Some b =>
        nr ←r load (<[this := Node.mk v parent l r k]> h) b;
        Ok (size_add 1 (Node.height nr))
    | None, None => Ok 0%Z
    end = Ok hgt ∧
    hgt = height_rule h (Node.mk v parent l r k).
Proof.
  intros Hthis Hl Hr.
  destruct (Node_link_height_defined h this v parent l r k Hthis Hl Hr)
    as (hgt & Hh & H00 & H10 & H01 & H11).
  exists hgt. split; [exact Hh|].
  unfold height_rule, child_height. cbn [Node.left Node.right].
  destruct l as [a|], r as [b|]; cbn in Hl, Hr.
  - destruct Hl as [na Hna], Hr as [nb Hnb]. rewrite Hna, Hnb. cbn. eauto.
  - destruct Hl as [na Hna]. rewrite Hna. cbn. eauto.
  - destruct Hr as [nb Hnb]. rewrite Hnb. cbn. eauto.
  - eauto.
Qed.

(** The linking constructor, written out for allocated arguments. *)
Lemma Node_link_root (h : heap T) this v l r k :
  h !! this = None → valid_ptr h l → valid_ptr h r →
  Node_link h this v None l r k
    = Ok (<[this := Node.mk v None l r
                      (height_rule h (Node.mk v None l r k))]> h).
Proof.
  intros Hthis Hl Hr.
  destruct (link_height h this v None l r k Hthis Hl Hr) as [hgt [Hh ->]].
  unfold Node_link. rewrite Hh. cbn [rbind]. by rewrite insert_insert_eq.
Qed.

Lemma Node_link_child (h : heap T) this v p pn l r k :
  h !! this = None → h !! p = Some pn → valid_ptr h l → valid_ptr h r →
  Node_link h this v (Some p) l r k
    = Ok (let h1 := <[this := Node.mk v (Some p) l r
                        (height_rule h (Node.mk v (Some p) l r k))]> h in
          if ltb v (Node.value pn) then
            <[p := Node.set_left pn (Some this)]> h1
          else if gtb v (Node.value pn) then
            <[p := Node.set_right pn (Some this)]> h1
          else h1).
Proof.
  intros Hthis Hp Hl Hr. assert (this ≠ p) as Hne by congruence.
  destruct (link_height h this v (Some p) l r k Hthis Hl Hr)
    as [hgt [Hh ->]].
  unfold Node_link. rewrite Hh. cbn [rbind]. rewrite insert_insert_eq.
  rewrite (load_Some _ p pn) by (by rewrite lookup_insert_ne).
  cbn [rbind].
  by destruct (ltb v (Node.value pn)), (gtb v (Node.value pn)).
Qed.

(** X3: [_construct_node(value, parent, left, right, height)] builds the
    new node in storage that was not in use, with the value and the three
    pointers as passed; of the nodes that existed it changes the parent
    only, and of the parent neither the value, the parent pointer nor the
    height.  In particular the nodes passed as children keep the parent
    pointer they had, and the height stored in the parent is not brought up
    to date. *)
Theorem construct_link_frame (t : binary_tree Alloc NodeAlloc) (h : heap T)
    v parent l r k :
  valid_ptr h parent → valid_ptr h l → valid_ptr h r →
  ∃ a h' hgt,
    _construct_node_link t h v parent l r k = Ok (t, h', Some a) ∧
    h !! a = None ∧
    h' !! a = Some (Node.mk v parent l r hgt) ∧
    (∀ b, b ≠ a → parent ≠ Some b → h' !! b = h !! b) ∧
    (∀ p pn, parent = Some p → h !! p = Some pn →
       ∃ pn', h' !! p = Some pn' ∧ Node.value pn' = Node.value pn ∧
         Node.parent pn' = Node.parent pn ∧
         Node.height pn' = Node.height pn) ∧
    dom h' = {[a]} ∪ dom h.
Proof.
  intros Hp Hl Hr. pose proof (allocate_fresh h) as Hf.
  exists (allocate h). unfold _construct_node_link.
  destruct parent as [p|].
  - destruct Hp as [pn Hpn]. assert (allocate h ≠ p) as Hne by congruence.
    rewrite (Node_link_child h _ v p pn l r k Hf Hpn Hl Hr). cbn [rbind].
    eexists _, _. split; [done|]. split; [done|].
    destruct (ltb v (Node.value pn)); [|destruct (gtb v (Node.value pn))].
    + split; [rewrite lookup_insert_ne by done; by rewrite lookup_insert_eq|].
      split; [intros b Hb Hpb; rewrite !lookup_insert_ne by congruence; done|].
      split.
      * intros p' pn' Hpp Hpn'. simplify_eq. eexists.
        rewrite lookup_insert_eq. by split.
      * rewrite dom_insert_lookup_L
          by (rewrite lookup_insert_ne by done; by eexists).
        by rewrite dom_insert_L.
    + split; [rewrite lookup_insert_ne by done; by rewrite lookup_insert_eq|].
      split; [intros b Hb Hpb; rewrite !lookup_insert_ne by congruence; done|].
      split.
      * intros p' pn' Hpp Hpn'. simplify_eq. eexists.
        rewrite lookup_insert_eq. by split.
      * rewrite dom_insert_lookup_L
          by (rewrite lookup_insert_ne by done; by eexists).
        by rewrite dom_insert_L.
    + split; [by rewrite lookup_insert_eq|].
      split; [intros b Hb Hpb; rewrite !lookup_insert_ne by congruence; done|].
      split.
      * intros p' pn' Hpp Hpn'. simplify_eq. exists pn.
        by rewrite lookup_insert_ne.
      * by rewrite dom_insert_L.
  - rewrite (Node_link_root h _ v l r k Hf Hl Hr). cbn [rbind].
    eexists _, _. split; [done|]. split; [done|].
    split; [by rewrite lookup_insert_eq|].
    split; [intros b Hb _; by rewrite lookup_insert_ne|].
    split; [done|]. by rewrite dom_insert_L.
Qed.

(** X4: destroying the node that the linking constructor just built under
    a parent returns the parent and leaves the heap as it was, except that
    the parent's link on the side the node was put is null; when that link
    was null before (or the node was not linked because the values are
    equal) the heap is exactly as before. *)
Theorem link_destroy_round_trip (t : binary_tree Alloc NodeAlloc)
    (h : heap T) v p pn l r k :
  h !! p = Some pn → valid_ptr h l → valid_ptr h r →
  valid_ptr h (Node.left pn) → valid_ptr h (Node.right pn) →
  ∃ h',
    (c ←r _construct_node_link t h v (Some p) l r k;
     _destroy_node c.1.1 c.1.2 c.2) = Ok (t, h', Some p) ∧
    h' = <[p := if ltb v (Node.value pn) then Node.set_left pn None
                else if gtb v (Node.value pn) then Node.set_right pn None
                else pn]> h ∧
    (ltb v (Node.value pn) = true → Node.left pn = None → h' = h) ∧
    (gtb v (Node.value pn) = true → Node.right pn = None → h' = h) ∧
    (v = Node.value pn → h' = h).
Proof.
  intros Hpn Hl Hr Hpl Hpr. pose proof (allocate_fresh h) as Hf.
  assert (allocate h ≠ p) as Hne by congruence.
  pose proof (valid_ptr_ne h _ _ Hpl Hf) as Hnl.
  pose proof (valid_ptr_ne h _ _ Hpr Hf) as Hnr.
  unfold _construct_node_link.
  rewrite (Node_link_child h _ v p pn l r k Hf Hpn Hl Hr).
  cbn [rbind fst snd]. unfold _destroy_node.
  set (a := allocate h) in *.
  set (n := Node.mk v (Some p) l r _).
  destruct (ltb v (Node.value pn)) eqn:Hlt;
    [|destruct (gtb v (Node.value pn)) eqn:Hgt].
  - rewrite (load_Some _ a n)
      by (rewrite lookup_insert_ne by done; by rewrite lookup_insert_eq).
    cbn [rbind Node.parent n].
    rewrite (load_Some _ p (Node.set_left pn (Some a)))
      by (by rewrite lookup_insert_eq).
    cbn [rbind Node.set_left Node.left].
    assert (ptr_eqb (Some a) (Some a) = true) as -> by (by apply ptr_eqb_true).
    eexists. split; [done|]. rewrite insert_insert_eq.
    rewrite delete_insert_ne by done. rewrite delete_insert_id by done.
    split; [done|]. split; [|split].
    + intros _ Hnone. apply insert_id. rewrite Hpn. f_equal.
      destruct pn; cbn in *. by subst.
    + intros Hg. unfold gtb in Hg. rewrite (ltb_asym _ _ Hlt) in Hg.
      discriminate.
    + intros ->. rewrite ltb_irrefl in Hlt. discriminate.
  - rewrite (load_Some _ a n)
      by (rewrite lookup_insert_ne by done; by rewrite lookup_insert_eq).
    cbn [rbind Node.parent n].
    rewrite (load_Some _ p (Node.set_right pn (Some a)))
      by (by rewrite lookup_insert_eq).
    cbn [rbind Node.set_right Node.left Node.right].
    assert (ptr_eqb (Node.left pn) (Some a) = false) as ->
      by (by apply ptr_eqb_false).
    assert (ptr_eqb (Some a) (Some a) = true) as -> by (by apply ptr_eqb_true).
    eexists. split; [done|]. rewrite insert_insert_eq.
    rewrite delete_insert_ne by done. rewrite delete_insert_id by done.
    split; [done|]. split; [discriminate|]. split.
    + intros _ Hnone. apply insert_id. rewrite Hpn. f_equal.
      destruct pn; cbn in *. by subst.
    + intros ->. unfold gtb in Hgt. rewrite ltb_irrefl in Hgt. discriminate.
  - rewrite (load_Some _ a n) by (by rewrite lookup_insert_eq).
    cbn [rbind Node.parent n].
    rewrite (load_Some _ p pn) by (by rewrite lookup_insert_ne).
    cbn [rbind].
    assert (ptr_eqb (Node.left pn) (Some a) = false) as ->
      by (by apply ptr_eqb_false).
    assert (ptr_eqb (Node.right pn) (Some a) = false) as ->
      by (by apply ptr_eqb_false).
    eexists. split; [done|]. rewrite delete_insert_id by done.
    rewrite insert_id by done. by repeat split.
Qed.


Lemma size_delete_S {A} (m : gmap positive A) a x :
  m !! a = Some x → base.size m = S (base.size (delete a m)).
Proof.
  intros Ha. rewrite <- (insert_delete_id m a x) at 1 by done.
  apply map_size_insert_None, lookup_delete_eq.
Qed.

(** X5: on an allocated node whose parent pointer is null or allocated,
    [_destroy_node] frees exactly that node and returns its stored parent
    pointer.  Of the nodes that remain only the parent can differ from
    before, and no remaining node has its value, parent pointer or height
    changed: the children of the destroyed node are not freed and still name
    it as their parent. *)
Theorem destroy_node_frees_one (t : binary_tree Alloc NodeAlloc) (h : heap T)
    a n :
  h !! a = Some n → valid_ptr h (Node.parent n) →
  ∃ h', _destroy_node t h (Some a) = Ok (t, h', Node.parent n) ∧
    dom h' = dom h ∖ {[a]} ∧
    base.size h = S (base.size h') ∧
    (∀ b, b ≠ a → Node.parent n ≠ Some b → h' !! b = h !! b) ∧
    (∀ b nb, h' !! b = Some nb →
       ∃ nb0, h !! b = Some nb0 ∧ Node.value nb = Node.value nb0 ∧
         Node.parent nb = Node.parent nb0 ∧
         Node.height nb = Node.height nb0).
Proof.
  intros Ha Hp. unfold _destroy_node.
  rewrite (load_Some _ _ _ Ha). cbn [rbind].
  destruct (Node.parent n) as [p|] eqn:Hpar.
  - destruct Hp as [pn Hpn]. rewrite (load_Some _ _ _ Hpn). cbn [rbind].
    assert (∃ pn', Node.value pn' = Node.value pn ∧
              Node.parent pn' = Node.parent pn ∧
              Node.height pn' = Node.height pn ∧
              (if ptr_eqb (Node.left pn) (Some a)
               then <[p:=Node.set_left pn None]> h
               else if ptr_eqb (Node.right pn) (Some a)
                    then <[p:=Node.set_right pn None]> h
                    else h) = <[p := pn']> h) as (pn' & Hv & Hpp & Hh & ->).
    { destruct (ptr_eqb (Node.left pn) (Some a));
        [|destruct (ptr_eqb (Node.right pn) (Some a))].
      - by exists (Node.set_left pn None).
      - by exists (Node.set_right pn None).
      - exists pn. by rewrite insert_id. }
    eexists. split; [done|].
    assert (is_Some (<[p:=pn']> h !! a)) as [n1 Hn1].
    { destruct (decide (p = a)) as [->|Hne].
      - rewrite lookup_insert_eq. by eexists.
      - rewrite lookup_insert_ne by done. by eexists. }
    split; [|split; [|split]].
    + rewrite dom_delete_L. by rewrite dom_insert_lookup_L by (by eexists).
    + rewrite <- (size_delete_S _ a n1 Hn1).
      symmetry. apply map_size_insert_Some. by eexists.
    + intros b Hba Hpb. rewrite lookup_delete_ne by done.
      rewrite lookup_insert_ne by congruence. done.
    + intros b nb Hb.
      destruct (decide (a = b)) as [->|Hab];
        [by rewrite lookup_delete_eq in Hb|].
      rewrite lookup_delete_ne in Hb by done.
      destruct (decide (p = b)) as [->|Hpb].
      * rewrite lookup_insert_eq in Hb. injection Hb as <-. by exists pn.
      * rewrite lookup_insert_ne in Hb by done. by exists nb.
  - eexists. split; [done|].
    split; [by rewrite dom_delete_L|]. split; [by apply (size_delete_S _ _ n)|].
    split.
    + intros b Hba _. by rewrite lookup_delete_ne.
    + intros b nb Hb.
      destruct (decide (a = b)) as [->|Hab];
        [by rewrite lookup_delete_eq in Hb|].
      rewrite lookup_delete_ne in Hb by done. by exists nb.
Qed.

Lemma heights_ok_fresh (h : heap T) this n p :
  h !! this = None → heights_ok h p → heights_ok (<[this := n]> h) p.
Proof.
  intros Hthis. induction 1 as [|a na Ha Hl IHl Hr IHr Hrule]; [constructor|].
  assert (a ≠ this) as Hne by congruence.
  assert (∀ q, heights_ok h q → child_height (<[this := n]> h) q
                                = child_height h q) as Hch.
  { intros q Hq. destruct Hq as [|c nc Hc _ _ _]; [done|].
    cbn. rewrite lookup_insert_ne; [done|congruence]. }
  apply (heights_ok_node _ a na); [by rewrite lookup_insert_ne|done..|].
  unfold height_rule in *. by rewrite !Hch.
Qed.

(** X6: built with a null parent over children below which every stored
    height follows the constructor's rule, the new node is again the root
    of a subtree in which every stored height follows the rule. *)
Theorem link_keeps_heights (h : heap T) this v l r k :
  h !! this = None → heights_ok h l → heights_ok h r →
  ∃ h', Node_link h this v None l r k = Ok h' ∧ heights_ok h' (Some this).
Proof.
  intros Hthis Hl Hr.
  assert (∀ q, heights_ok h q → valid_ptr h q) as Hvalid.
  { intros q Hq. destruct Hq; [done|]. cbn. by eexists. }
  rewrite (Node_link_root h this v l r k Hthis (Hvalid _ Hl) (Hvalid _ Hr)).
  eexists. split; [done|].
  set (n := Node.mk v None l r _).
  apply (heights_ok_node _ this n); [by rewrite lookup_insert_eq|..].
  - by apply heights_ok_fresh.
  - by apply heights_ok_fresh.
  - assert (∀ q, heights_ok h q → child_height (<[this := n]> h) q
                                  = child_height h q) as Hch.
    { intros q Hq. destruct Hq as [|c nc Hc _ _ _]; [done|].
      cbn. rewrite lookup_insert_ne; [done|congruence]. }
    unfold height_rule. cbn [Node.left Node.right Node.height n].
    by rewrite !Hch.
Qed.

(** X7: the linking constructor does not bring the parent's height up to
    date.  After a node is linked under a parent that was a leaf with
    height 0, the parent has a child but still stores height 0, so the
    stored heights below the parent no longer follow the rule. *)
Theorem link_leaves_parent_height_stale (h : heap T) this v p pn k :
  h !! this = None → h !! p = Some pn →
  Node.left pn = None → Node.right pn = None → Node.height pn = 0%Z →
  v ≠ Node.value pn →
  ∃ h' pn', Node_link h this v (Some p) None None k = Ok h' ∧
    h' !! p = Some pn' ∧ Node.height pn' = 0%Z ∧
    (Node.left pn' = Some this ∨ Node.right pn' = Some this) ∧
    ¬ heights_ok h' (Some p).
Proof.
  intros Hthis Hp Hl Hr Hh Hv. assert (this ≠ p) as Hne by congruence.
  rewrite (Node_link_child h this v p pn None None k Hthis Hp I I).
  cbn zeta.
  set (n := Node.mk v (Some p) None None _).
  assert (size_add 1 0 ≠ 0%Z) as Hone by (by vm_compute).
  destruct (ltb v (Node.value pn)) eqn:Hlt;
    [|destruct (gtb v (Node.value pn)) eqn:Hgt].
  - eexists _, (Node.set_left pn (Some this)). split; [done|].
    split; [by rewrite lookup_insert_eq|]. split; [done|].
    split; [by left|]. intros Hok. inversion Hok as [|a na Ha _ _ Hrule]; subst.
    rewrite lookup_insert_eq in Ha. injection Ha as <-.
    unfold height_rule, child_height in Hrule.
    cbn [Node.set_left Node.left Node.right Node.height] in Hrule.
    rewrite lookup_insert_ne, lookup_insert_eq in Hrule by done.
    rewrite Hr, Hh in Hrule. cbn in Hrule. by apply Hone.
  - eexists _, (Node.set_right pn (Some this)). split; [done|].
    split; [by rewrite lookup_insert_eq|]. split; [done|].
    split; [by right|]. intros Hok. inversion Hok as [|a na Ha _ _ Hrule]; subst.
    rewrite lookup_insert_eq in Ha. injection Ha as <-.
    unfold height_rule, child_height in Hrule.
    cbn [Node.set_right Node.left Node.right Node.height] in Hrule.
    rewrite lookup_insert_ne, lookup_insert_eq in Hrule by done.
    rewrite Hl, Hh in Hrule. cbn in Hrule. by apply Hone.
  - unfold gtb in Hgt. destruct Hv. by apply ltb_total.
Qed.

End NodeStoreMore.

(** * The shape of the heap under the node primitives *)

Section ShapeFacts.
Context {T : Type}.

Lemma child_cases (s s0 : side) (n : Node.t T) c :
  child s n = None → child s0 n = Some c → s0 = flip s.
Proof.
  intros Hn Hc. destruct (side_cases s s0) as [->| ->]; [congruence|done].
Qed.

(** Putting a childless node [n] into unused storage and making it the
    [s] child of [p], whose [s] link was null, keeps the links
    consistent. *)
Lemma shape_after_link (h : heap T) depth this p pn pn' n s :
  tree_shaped h depth → h !! this = None → h !! p = Some pn →
  child s pn = None → child s pn' = Some this →
  child (flip s) pn' = child (flip s) pn →
  Node.parent pn' = Node.parent pn →
  Node.parent n = Some p → Node.left n = None → Node.right n = None →
  tree_shaped (<[p := pn']> (<[this := n]> h))
    (λ x, if decide (x = this) then S (depth p) else depth x).
Proof.
  intros Hts Hthis Hp Hs Hs' Hfs Hpar Hn Hnl Hnr.
  assert (this ≠ p) as Hne by congruence.
  set (h' := <[p := pn']> (<[this := n]> h)).
  set (depth' := λ x, if decide (x = this) then S (depth p) else depth x).
  assert (Hold : ∀ x nx, h !! x = Some nx →
    x ≠ this ∧ depth' x = depth x ∧
    ∃ nx', h' !! x = Some nx' ∧ Node.parent nx' = Node.parent nx ∧
      (x ≠ p → nx' = nx) ∧ (x = p → nx' = pn' ∧ nx = pn)).
  { intros x nx Hx. assert (x ≠ this) as Hxt by congruence.
    split; [done|]. split; [unfold depth'; by rewrite decide_False|].
    unfold h'. destruct (decide (x = p)) as [->|Hxp].
    - exists pn'. rewrite lookup_insert_eq.
      assert (nx = pn) as -> by congruence. by repeat split.
    - exists nx. rewrite !lookup_insert_ne by done. by repeat split. }
  assert (Hnew : ∀ x nx, h' !! x = Some nx →
    (x = p ∧ nx = pn') ∨ (x = this ∧ nx = n) ∨
    (x ≠ p ∧ x ≠ this ∧ h !! x = Some nx)).
  { intros x nx Hx. unfold h' in Hx.
    destruct (decide (x = p)) as [->|Hxp].
    - rewrite lookup_insert_eq in Hx. left. split; congruence.
    - rewrite lookup_insert_ne in Hx by done.
      destruct (decide (x = this)) as [->|Hxt].
      + rewrite lookup_insert_eq in Hx. right. left. split; congruence.
      + rewrite lookup_insert_ne in Hx by done. right. by right. }
  assert (Hdp : depth' p = depth p).
  { unfold depth'. by rewrite decide_False. }
  assert (Hdt : depth' this = S (depth p)).
  { unfold depth'. by rewrite decide_True. }
  assert (Hnc : ∀ s0, child s0 n = None) by (by intros []).
  assert (Hhn : h' !! this = Some n).
  { unfold h'. rewrite lookup_insert_ne by done. by rewrite lookup_insert_eq. }
  assert (Hhp : h' !! p = Some pn') by (unfold h'; by rewrite lookup_insert_eq).
  (* a child link read in the old heap is still there in the new heap *)
  assert (Hlink : ∀ s0 a na c, h !! a = Some na → child s0 na = Some c →
    ∃ na', h' !! a = Some na' ∧ child s0 na' = Some c).
  { intros s0 a na c Ha Hc.
    destruct (Hold a na Ha) as (_ & _ & na' & Ha' & _ & Hsame & Hisp).
    exists na'. split; [done|].
    destruct (decide (a = p)) as [->|Hap].
    - destruct (Hisp eq_refl) as [-> ->].
      pose proof (child_cases s s0 pn c Hs Hc) as ->. by rewrite Hfs.
    - by rewrite (Hsame Hap). }
  split.
  - intros s0 a na c Ha Hc.
    destruct (Hnew a na Ha) as [[-> ->]|[[-> ->]|(Hap & Hat & Ha0)]].
    + destruct (side_cases s s0) as [->| ->].
      * rewrite Hs' in Hc. injection Hc as <-.
        exists n. by rewrite Hdt, Hdp.
      * rewrite Hfs in Hc.
        destruct (ts_child h depth Hts _ _ _ _ Hp Hc) as (m & Hm & Hpm & Hd).
        destruct (Hold c m Hm) as (_ & Hdc & m' & Hm' & Hpm' & _).
        exists m'. rewrite Hdc, Hdp. split; [done|]. split; congruence.
    + by rewrite Hnc in Hc.
    + destruct (ts_child h depth Hts _ _ _ _ Ha0 Hc) as (m & Hm & Hpm & Hd).
      destruct (Hold c m Hm) as (_ & Hdc & m' & Hm' & Hpm' & _).
      destruct (Hold a na Ha0) as (_ & Hda & _).
      exists m'. rewrite Hdc, Hda. split; [done|]. split; congruence.
  - intros c m a Hc Hpm.
    destruct (Hnew c m Hc) as [[-> ->]|[[-> ->]|(Hcp & Hct & Hc0)]].
    + rewrite Hpar in Hpm.
      destruct (ts_parent h depth Hts _ _ _ Hp Hpm) as (na & s0 & Ha & Hch).
      destruct (Hlink s0 a na p Ha Hch) as (na' & Ha' & Hch').
      by exists na', s0.
    + rewrite Hn in Hpm. injection Hpm as <-. by exists pn', s.
    + destruct (ts_parent h depth Hts _ _ _ Hc0 Hpm) as (na & s0 & Ha & Hch).
      destruct (Hlink s0 a na c Ha Hch) as (na' & Ha' & Hch').
      by exists na', s0.
  - intros s0 a na c Ha Hc.
    destruct (Hnew a na Ha) as [[-> ->]|[[-> ->]|(Hap & Hat & Ha0)]].
    + destruct (side_cases s s0) as [->| ->].
      * rewrite Hs' in Hc. injection Hc as <-. rewrite Hfs. intros Hbad.
        destruct (ts_child h depth Hts _ _ _ _ Hp Hbad) as (m & Hm & _).
        congruence.
      * rewrite flip_flip, Hs'. rewrite Hfs in Hc. intros [= <-].
        destruct (ts_child h depth Hts _ _ _ _ Hp Hc) as (m & Hm & _).
        congruence.
    + by rewrite Hnc in Hc.
    + by apply (ts_distinct h depth Hts s0 a na c).
  - intros a na Ha Hroot.
    destruct (Hnew a na Ha) as [[-> ->]|[[-> ->]|(Hap & Hat & Ha0)]].
    + rewrite Hdp. rewrite Hpar in Hroot.
      by apply (ts_root h depth Hts p pn).
    + congruence.
    + destruct (Hold a na Ha0) as (_ & -> & _).
      by apply (ts_root h depth Hts a na).
Qed.

(** Freeing a childless node [a] and clearing the link through which its
    parent [p] named it keeps the links consistent. *)
Lemma shape_after_unlink (h : heap T) depth a n p pn pn' s :
  tree_shaped h depth → h !! a = Some n →
  Node.left n = None → Node.right n = None →
  h !! p = Some pn → child s pn = Some a →
  child s pn' = None → child (flip s) pn' = child (flip s) pn →
  Node.parent pn' = Node.parent pn →
  tree_shaped (delete a (<[p := pn']> h)) depth.
Proof.
  intros Hts Ha Hnl Hnr Hp Hs Hs' Hfs Hpar.
  assert (Hnc : ∀ s0, child s0 n = None) by (by intros []).
  assert (p ≠ a) as Hne.
  { intros ->. assert (pn = n) as -> by congruence. by rewrite Hnc in Hs. }
  set (h' := delete a (<[p := pn']> h)).
  assert (Hnew : ∀ x nx, h' !! x = Some nx →
    x ≠ a ∧ ((x = p ∧ nx = pn') ∨ (x ≠ p ∧ h !! x = Some nx))).
  { intros x nx Hx. unfold h' in Hx.
    destruct (decide (a = x)) as [->|Hax];
      [by rewrite lookup_delete_eq in Hx|].
    rewrite lookup_delete_ne in Hx by done. split; [done|].
    destruct (decide (p = x)) as [->|Hpx].
    - rewrite lookup_insert_eq in Hx. left. split; congruence.
    - rewrite lookup_insert_ne in Hx by done. right. by split. }
  assert (Hold : ∀ x nx, h !! x = Some nx → x ≠ a →
    ∃ nx', h' !! x = Some nx' ∧ Node.parent nx' = Node.parent nx ∧
      (x ≠ p → nx' = nx) ∧ (x = p → nx' = pn' ∧ nx = pn)).
  { intros x nx Hx Hxa. unfold h'. rewrite lookup_delete_ne by done.
    destruct (decide (x = p)) as [->|Hxp].
    - exists pn'. rewrite lookup_insert_eq.
      assert (nx = pn) as -> by congruence. by repeat split.
    - exists nx. rewrite lookup_insert_ne by done. by repeat split. }
  (* only [p], through its [s] link, names [a] as a child *)
  assert (Honly : ∀ s0 x nx, h !! x = Some nx → child s0 nx = Some a →
    x = p ∧ s0 = s).
  { intros s0 x nx Hx Hc.
    destruct (ts_child h depth Hts _ _ _ _ Hx Hc) as (m & Hm & Hpm & _).
    destruct (ts_child h depth Hts _ _ _ _ Hp Hs) as (m' & Hm' & Hpm' & _).
    assert (x = p) as -> by congruence. split; [done|].
    assert (nx = pn) as -> by congruence.
    destruct (side_cases s s0) as [->| ->]; [done|].
    by destruct (ts_distinct h depth Hts _ _ _ _ Hp Hs). }
  assert (Hlink : ∀ s0 x nx c, h !! x = Some nx → child s0 nx = Some c →
    c ≠ a → ∃ nx', h' !! x = Some nx' ∧ child s0 nx' = Some c).
  { intros s0 x nx c Hx Hc Hca.
    assert (x ≠ a) as Hxa.
    { intros ->. assert (nx = n) as -> by congruence. by rewrite Hnc in Hc. }
    destruct (Hold x nx Hx Hxa) as (nx' & Hx' & _ & Hsame & Hisp).
    exists nx'. split; [done|].
    destruct (decide (x = p)) as [->|Hxp].
    - destruct (Hisp eq_refl) as [-> ->].
      destruct (side_cases s s0) as [->| ->]; [congruence|by rewrite Hfs].
    - by rewrite (Hsame Hxp). }
  split.
  - intros s0 x nx c Hx Hc.
    assert (∃ nx0, h !! x = Some nx0 ∧ child s0 nx0 = Some c ∧ c ≠ a)
      as (nx0 & Hx0 & Hc0 & Hca).
    { destruct (Hnew x nx Hx) as [Hxa [[-> ->]|[Hxp Hx0]]].
      - destruct (side_cases s s0) as [->| ->]; [congruence|].
        rewrite Hfs in Hc. exists pn. split; [done|]. split; [done|].
        intros ->. by destruct (ts_distinct h depth Hts _ _ _ _ Hp Hs).
      - exists nx. split; [done|]. split; [done|].
        intros ->. by destruct (Honly s0 x nx Hx0 Hc). }
    destruct (ts_child h depth Hts _ _ _ _ Hx0 Hc0) as (m & Hm & Hpm & Hd).
    destruct (Hold c m Hm Hca) as (m' & Hm' & Hpm' & _).
    exists m'. split; [done|]. split; congruence.
  - intros c m x Hc Hpm.
    assert (∃ m0, h !! c = Some m0 ∧ Node.parent m0 = Some x ∧ c ≠ a)
      as (m0 & Hc0 & Hpm0 & Hca).
    { destruct (Hnew c m Hc) as [Hca [[-> ->]|[Hcp Hc0]]].
      - exists pn. by rewrite <- Hpar.
      - by exists m. }
    destruct (ts_parent h depth Hts _ _ _ Hc0 Hpm0) as (nx & s0 & Hx & Hch).
    destruct (Hlink s0 x nx c Hx Hch Hca) as (nx' & Hx' & Hch').
    by exists nx', s0.
  - intros s0 x nx c Hx Hc.
    destruct (Hnew x nx Hx) as [Hxa [[-> ->]|[Hxp Hx0]]].
    + destruct (side_cases s s0) as [->| ->]; [congruence|].
      by rewrite flip_flip, Hs'.
    + by apply (ts_distinct h depth Hts s0 x nx c).
  - intros x nx Hx Hroot.
    destruct (Hnew x nx Hx) as [Hxa [[-> ->]|[Hxp Hx0]]].
    + rewrite Hpar in Hroot. by apply (ts_root h depth Hts p pn).
    + by apply (ts_root h depth Hts x nx).
Qed.

(** Freeing a childless node without a parent keeps the links
    consistent. *)
Lemma shape_after_delete_root (h : heap T) depth a n :
  tree_shaped h depth → h !! a = Some n →
  Node.left n = None → Node.right n = None → Node.parent n = None →
  tree_shaped (delete a h) depth.
Proof.
  intros Hts Ha Hnl Hnr Hpn.
  assert (Hnc : ∀ s0, child s0 n = None) by (by intros []).
  assert (Hnew : ∀ x nx, delete a h !! x = Some nx →
    x ≠ a ∧ h !! x = Some nx).
  { intros x nx Hx. destruct (decide (a = x)) as [->|Hax];
      [by rewrite lookup_delete_eq in Hx|].
    by rewrite lookup_delete_ne in Hx. }
  split.
  - intros s0 x nx c Hx Hc. destruct (Hnew x nx Hx) as [Hxa Hx0].
    destruct (ts_child h depth Hts _ _ _ _ Hx0 Hc) as (m & Hm & Hpm & Hd).
    exists m. split; [|done]. rewrite lookup_delete_ne; [done|].
    intros ->. congruence.
  - intros c m x Hc Hpm. destruct (Hnew c m Hc) as [Hca Hc0].
    destruct (ts_parent h depth Hts _ _ _ Hc0 Hpm) as (nx & s0 & Hx & Hch).
    exists nx, s0. split; [|done]. rewrite lookup_delete_ne; [done|].
    intros ->. assert (nx = n) as -> by congruence. by rewrite Hnc in Hch.
  - intros s0 x nx c Hx Hc. destruct (Hnew x nx Hx) as [Hxa Hx0].
    by apply (ts_distinct h depth Hts s0 x nx c).
  - intros x nx Hx Hroot. destruct (Hnew x nx Hx) as [Hxa Hx0].
    by apply (ts_root h depth Hts x nx).
Qed.


End ShapeFacts.

Section ShapeTheorems.
Context {T : Type} `{Ordered T}.
Context {Alloc NodeAlloc : Type} `{EqDecision Alloc} `{EqDecision NodeAlloc}.
Import BinaryTree.

(** X8: in a heap whose parent and child links agree, constructing a
    childless node under a parent with a different value, on a side where
    the parent has no child yet, gives a heap whose parent and child links
    agree again. *)
Theorem link_leaf_keeps_shape (t : binary_tree Alloc NodeAlloc) (h : heap T)
    v p pn k :
  well_formed h → h !! p = Some pn → v ≠ Node.value pn →
  (ltb v (Node.value pn) = true → Node.left pn = None) →
  (gtb v (Node.value pn) = true → Node.right pn = None) →
  ∃ a h', _construct_node_link t h v (Some p) None None k
            = Ok (t, h', Some a) ∧
    h !! a = None ∧ well_formed h'.
Proof.
  intros [depth Hts] Hp Hv Hl Hr. pose proof (allocate_fresh h) as Hf.
  exists (allocate h). unfold _construct_node_link.
  rewrite (Node_link_child h _ v p pn None None k Hf Hp I I).
  cbn [rbind]. cbn zeta.
  destruct (ltb v (Node.value pn)) eqn:Hlt;
    [|destruct (gtb v (Node.value pn)) eqn:Hgt].
  - eexists. split; [done|]. split; [done|]. eexists.
    apply (shape_after_link h depth _ p pn _ _ L Hts Hf Hp); auto.
  - eexists. split; [done|]. split; [done|]. eexists.
    apply (shape_after_link h depth _ p pn _ _ R Hts Hf Hp); auto.
  - unfold gtb in Hgt. destruct Hv. by apply ltb_total.
Qed.

(** X9: in a heap whose parent and child links agree, [_destroy_node] on a
    childless node returns its parent pointer and leaves a heap whose parent
    and child links agree again. *)
Theorem destroy_leaf_keeps_shape (t : binary_tree Alloc NodeAlloc)
    (h : heap T) a n :
  well_formed h → h !! a = Some n →
  Node.left n = None → Node.right n = None →
  ∃ h', _destroy_node t h (Some a) = Ok (t, h', Node.parent n) ∧
    h' !! a = None ∧ well_formed h'.
Proof.
  intros [depth Hts] Ha Hnl Hnr. unfold _destroy_node.
  rewrite (load_Some _ _ _ Ha). cbn [rbind].
  destruct (Node.parent n) as [p|] eqn:Hpar.
  - destruct (ts_parent h depth Hts _ _ _ Ha Hpar) as (pn & s & Hp & Hs).
    rewrite (load_Some _ _ _ Hp). cbn [rbind].
    destruct s; cbn [child] in Hs.
    + assert (ptr_eqb (Node.left pn) (Some a) = true) as ->
        by (by apply ptr_eqb_true).
      eexists. split; [done|]. split; [by rewrite lookup_delete_eq|].
      exists depth.
      by apply (shape_after_unlink h depth a n p pn _ L Hts Ha Hnl Hnr Hp).
    + pose proof (ts_distinct h depth Hts R p pn a Hp Hs) as Hd.
      cbn [flip child] in Hd.
      assert (ptr_eqb (Node.left pn) (Some a) = false) as ->
        by (by apply ptr_eqb_false).
      assert (ptr_eqb (Node.right pn) (Some a) = true) as ->
        by (by apply ptr_eqb_true).
      eexists. split; [done|]. split; [by rewrite lookup_delete_eq|].
      exists depth.
      by apply (shape_after_unlink h depth a n p pn _ R Hts Ha Hnl Hnr Hp).
  - eexists. split; [done|]. split; [by rewrite lookup_delete_eq|].
    exists depth. by apply (shape_after_delete_root h depth a n).
Qed.

(** X10: constructing a node under a parent that holds the same value
    still allocates the node and stores the parent pointer in it, while the
    parent is left without a link to it; from a heap whose parent and child
    links agree this gives a heap in which they do not. *)
Theorem link_equal_value_orphan (t : binary_tree Alloc NodeAlloc)
    (h : heap T) v p pn l r k :
  well_formed h → h !! p = Some pn → v = Node.value pn →
  valid_ptr h l → valid_ptr h r →
  ∃ a h' hgt, _construct_node_link t h v (Some p) l r k
                = Ok (t, h', Some a) ∧
    h !! a = None ∧
    h' !! a = Some (Node.mk v (Some p) l r hgt) ∧
    h' !! p = Some pn ∧
    ¬ well_formed h'.
Proof.
  intros [depth Hts] Hp -> Hl Hr. pose proof (allocate_fresh h) as Hf.
  assert (allocate h ≠ p) as Hne by congruence.
  exists (allocate h). unfold _construct_node_link.
  rewrite (Node_link_child h _ _ p pn l r k Hf Hp Hl Hr).
  cbn [rbind]. cbn zeta. unfold gtb. rewrite ltb_irrefl.
  eexists _, _. split; [done|]. split; [done|].
  split; [by rewrite lookup_insert_eq|].
  split; [by rewrite lookup_insert_ne|].
  intros [depth' Hts'].
  destruct (ts_parent _ depth' Hts' (allocate h) _ p
              (lookup_insert_eq _ _ _) eq_refl) as (n' & s & Hn' & Hs).
  rewrite lookup_insert_ne in Hn' by done.
  assert (n' = pn) as -> by congruence.
  destruct (ts_child h depth Hts _ _ _ _ Hp Hs) as (m & Hm & _).
  congruence.
Qed.

End ShapeTheorems.

(** * Further properties of node handles *)

Section HandleMore.
Context {T : Type} {NodeAlloc : Type}.
Context (alloc_default : NodeAlloc).
Import node_type.

Lemma _destroy_result (hs : gmap positive (node_type.t NodeAlloc))
    (h : heap T) (x : addr) (d : node_type.t NodeAlloc) :
  hs !! x = Some d → valid_ptr h (node d) →
  _destroy hs h x
    = Ok (<[x := mk None (allocator d)]> hs,
          match node d with Some a => delete a h | None => h end).
Proof.
  intros Hx Hv. unfold _destroy. rewrite (get_Some _ _ _ Hx). cbn [rbind].
  destruct (node d) as [a|] eqn:Hnd.
  - destruct Hv as [n Hn]. rewrite (load_Some _ _ _ Hn). cbn [rbind].
    unfold set_node. by rewrite (get_Some _ _ _ Hx).
  - rewrite insert_id; [done|]. rewrite Hx. f_equal.
    destruct d; cbn in *. by subst.
Qed.

Lemma swap_result (hs : gmap positive (node_type.t NodeAlloc))
    (this other : addr) (d o : node_type.t NodeAlloc) :
  hs !! this = Some d → hs !! other = Some o →
  swap hs this other
    = Ok (<[other := mk (node d) (allocator o)]>
            (<[this := mk (node o) (allocator d)]> hs)).
Proof.
  intros Hd Ho. unfold swap, set_node.
  rewrite (get_Some _ _ _ Hd), (get_Some _ _ _ Ho). cbn [rbind].
  destruct (decide (this = other)) as [->|Hne].
  - assert (d = o) as -> by congruence.
    by rewrite (get_Some _ other _ (lookup_insert_eq _ _ _)).
  - by rewrite (get_Some _ other o) by (by rewrite lookup_insert_ne).
Qed.

(** X11: [swap] exchanges the node pointers of the two handles and nothing
    else: each handle keeps its own allocator, other handles and the heap's
    nodes are not touched, and swapping again restores the handles.  This
    holds also when both names denote the same handle. *)
Theorem swap_exchanges_nodes (hs : gmap positive (node_type.t NodeAlloc))
    (this other : addr) (d o : node_type.t NodeAlloc) :
  hs !! this = Some d → hs !! other = Some o →
  ∃ hs', swap hs this other = Ok hs' ∧
    hs' !! this = Some (mk (node o) (allocator d)) ∧
    hs' !! other = Some (mk (node d) (allocator o)) ∧
    (∀ x, x ≠ this → x ≠ other → hs' !! x = hs !! x) ∧
    swap hs' this other = Ok hs.
Proof.
  intros Hd Ho. eexists. split; [by apply swap_result|].
  set (hs' := <[other := _]> _).
  assert (Hother : hs' !! other = Some (mk (node d) (allocator o)))
    by (unfold hs'; by rewrite lookup_insert_eq).
  assert (Hthis : hs' !! this = Some (mk (node o) (allocator d))).
  { unfold hs'. destruct (decide (this = other)) as [->|Hne].
    - rewrite lookup_insert_eq. by assert (d = o) as -> by congruence.
    - rewrite lookup_insert_ne by done. by rewrite lookup_insert_eq. }
  assert (Hrest : ∀ x, x ≠ this → x ≠ other → hs' !! x = hs !! x).
  { intros x Hx1 Hx2. unfold hs'. by rewrite !lookup_insert_ne by done. }
  split; [done|]. split; [done|]. split; [done|].
  rewrite (swap_result hs' this other _ _ Hthis Hother).
  cbn [node allocator]. f_equal. apply map_eq. intros x.
  destruct (decide (x = other)) as [->|Hxo].
  - rewrite lookup_insert_eq, Ho. by destruct o.
  - rewrite lookup_insert_ne by done.
    destruct (decide (x = this)) as [->|Hxt].
    + rewrite lookup_insert_eq, Hd. by destruct d.
    + rewrite lookup_insert_ne by done. by apply Hrest.
Qed.

(** X12: after [_destroy()] the handle is empty, the node it held is
    freed, and a second [_destroy()] (as the destructor would run it)
    changes nothing, so the node is not freed twice. *)
Theorem destroy_idempotent (hs : gmap positive (node_type.t NodeAlloc))
    (h : heap T) (x : addr) (d : node_type.t NodeAlloc) :
  hs !! x = Some d → valid_ptr h (node d) →
  ∃ hs' h', _destroy hs h x = Ok (hs', h') ∧
    hs' !! x = Some (mk None (allocator d)) ∧
    h' = match node d with Some a => delete a h | None => h end ∧
    _destroy hs' h' x = Ok (hs', h').
Proof.
  intros Hx Hv. unfold _destroy at 1.
  rewrite (get_Some _ _ _ Hx). cbn [rbind].
  destruct (node d) as [a|] eqn:Hnd.
  - destruct Hv as [n Hn]. rewrite (load_Some _ _ _ Hn). cbn [rbind].
    unfold set_node. rewrite (get_Some _ _ _ Hx). cbn [rbind].
    eexists _, _. split; [done|].
    split; [by rewrite lookup_insert_eq|]. split; [done|].
    unfold _destroy.
    by rewrite (get_Some _ x _ (lookup_insert_eq _ _ _)).
  - exists hs, h. split; [done|]. split.
    + rewrite Hx. f_equal. destruct d; cbn in *. by subst.
    + split; [done|]. unfold _destroy.
      rewrite (get_Some _ _ _ Hx). cbn [rbind]. by rewrite Hnd.
Qed.

Ltac handle_lookup :=
  repeat first [rewrite lookup_insert_eq | rewrite lookup_insert_ne by done];
  done.

Lemma _construct_result (hs : gmap positive (node_type.t NodeAlloc))
    (h : heap T) this b me nb :
  hs !! this = Some me → h !! b = Some nb →
  _construct hs h this b
    = Ok (<[this := mk (Some (BinaryTree.allocate h)) (allocator me)]> hs,
          <[BinaryTree.allocate h := Node.mk (Node.value nb) None None None 0%Z]> h).
Proof.
  intros Hme Hb. unfold _construct, set_node, Node_value.
  rewrite (get_Some _ _ _ Hme). cbn [rbind].
  by rewrite (load_Some _ _ _ Hb).
Qed.

(** X13: copy construction from a handle that holds a node allocates a new
    node, distinct from every existing one, holding the same value with
    null links and height 0, and takes over the source's allocator; the
    source handle and all existing nodes are unchanged.  Copy construction
    from an empty handle gives an empty handle and allocates nothing. *)
Theorem copy_construct_deep (hs : gmap positive (node_type.t NodeAlloc))
    (h : heap T) (new other : addr) (o : node_type.t NodeAlloc)
    (junk : ptr) :
  hs !! other = Some o → hs !! new = None → valid_ptr h (node o) →
  ∃ hs' h', copy_construct alloc_default hs h new other junk = Ok (hs', h') ∧
    hs' !! other = Some o ∧
    (∀ b nb, h !! b = Some nb → h' !! b = Some nb) ∧
    match node o with
    | None => h' = h ∧ hs' !! new = Some (mk None alloc_default)
    | Some b =>
        ∃ a nb, h !! b = Some nb ∧ h !! a = None ∧
          hs' !! new = Some (mk (Some a) (allocator o)) ∧
          h' = <[a := Node.mk (Node.value nb) None None None 0%Z]> h
    end.
Proof.
  intros Ho Hnew Hv. assert (new ≠ other) as Hne by congruence.
  unfold copy_construct.
  rewrite (get_Some _ other o) by handle_lookup. cbn [rbind].
  destruct (node o) as [b|] eqn:Hno.
  - destruct Hv as [nb Hb].
    rewrite (_construct_result _ h new b (mk junk alloc_default) nb)
      by handle_lookup.
    cbn [rbind fst snd allocator].
    rewrite (get_Some _ other o) by handle_lookup. cbn [rbind].
    unfold set_allocator.
    rewrite (get_Some _ new (mk (Some (BinaryTree.allocate h)) alloc_default))
      by handle_lookup.
    cbn [rbind node].
    pose proof (allocate_fresh h) as Hf.
    eexists _, _. split; [done|]. split; [handle_lookup|]. split.
    + intros c nc Hc. rewrite lookup_insert_ne; [done|congruence].
    + exists (BinaryTree.allocate h), nb. split; [done|]. split; [done|].
      split; [handle_lookup|done].
  - unfold set_node.
    rewrite (get_Some _ new (mk junk alloc_default)) by handle_lookup.
    cbn [rbind allocator].
    eexists _, _. split; [done|]. split; [handle_lookup|]. split; [done|].
    split; [done|handle_lookup].
Qed.

(** X14: copy assignment of a handle to itself changes nothing.  Between
    two handles that do not hold the same node it frees the node the
    destination held; from an empty source the destination ends empty, and
    from a source holding a node the destination ends with a newly
    allocated node holding the same value, with null links and height 0,
    and with the source's allocator.  The source handle is unchanged. *)
Theorem copy_assign_deep (hs : gmap positive (node_type.t NodeAlloc))
    (h : heap T) (this other : addr) (d o : node_type.t NodeAlloc) :
  hs !! this = Some d → hs !! other = Some o → this ≠ other →
  valid_ptr h (node d) → valid_ptr h (node o) →
  (node o = None ∨ node o ≠ node d) →
  copy_assign hs h this this = Ok (hs, h) ∧
  ∃ hs' h' h1, copy_assign hs h this other = Ok (hs', h') ∧
    h1 = match node d with Some c => delete c h | None => h end ∧
    hs' !! other = Some o ∧
    match node o with
    | None => h' = h1 ∧ hs' !! this = Some (mk None (allocator d))
    | Some b =>
        ∃ a nb, h !! b = Some nb ∧ h1 !! a = None ∧
          hs' !! this = Some (mk (Some a) (allocator o)) ∧
          h' = <[a := Node.mk (Node.value nb) None None None 0%Z]> h1
    end.
Proof.
  intros Hd Ho Hne Hvd Hvo Halias. split.
  { unfold copy_assign. by rewrite bool_decide_eq_true_2. }
  unfold copy_assign. rewrite bool_decide_eq_false_2 by done.
  rewrite (_destroy_result hs h this d Hd Hvd). cbn [rbind fst snd].
  set (h1 := match node d with Some c => delete c h | None => h end).
  rewrite (get_Some _ other o) by handle_lookup. cbn [rbind].
  destruct (node o) as [b|] eqn:Hno.
  - destruct Hvo as [nb Hb].
    assert (Hb1 : h1 !! b = Some nb).
    { unfold h1. destruct (node d) as [c|]; [|done].
      rewrite lookup_delete_ne; [done|].
      destruct Halias as [?|Hneq]; [done|congruence]. }
    rewrite (_construct_result _ h1 this b (mk None (allocator d)) nb)
      by handle_lookup.
    cbn [rbind fst snd allocator].
    rewrite (get_Some _ other o) by handle_lookup. cbn [rbind].
    unfold set_allocator.
    rewrite (get_Some _ this (mk (Some (BinaryTree.allocate h1)) (allocator d)))
      by handle_lookup.
    cbn [rbind node].
    eexists _, _, h1. split; [done|]. split; [done|].
    split; [handle_lookup|].
    exists (BinaryTree.allocate h1), nb. split; [done|].
    split; [apply allocate_fresh|]. split; [handle_lookup|done].
  - eexists _, _, h1. split; [done|]. split; [done|].
    split; [handle_lookup|]. split; [done|handle_lookup].
Qed.


End HandleMore.

(** * The further properties at sample inputs *)

Lemma well_formed_heap_one : well_formed heap_one.
Proof.
  exists (λ _, 0). apply tree_shapedb_sound. vm_compute. reflexivity.
Defined.

Lemma well_formed_heap_two : well_formed heap_two.
Proof.
  exists depth_three. apply tree_shapedb_sound. vm_compute. reflexivity.
Defined.

Lemma well_formed_heap_three : well_formed heap_three.
Proof.
  exists depth_three. apply tree_shapedb_sound. vm_compute. reflexivity.
Defined.

Lemma construct_link_frame_witness :
  ∃ a h' hgt,
    BinaryTree._construct_node_link (tree_at_1 2) heap_two 8%Z
        (Some 1%positive) None None 0%Z
      = Ok (tree_at_1 2, h', Some a) ∧
    heap_two !! a = None ∧
    h' !! a = Some (Node.mk 8%Z (Some 1%positive) None None hgt) ∧
    h' !! 2%positive = heap_two !! 2%positive.
Proof.
  destruct (construct_link_frame (tree_at_1 2) heap_two 8%Z
              (Some 1%positive) None None 0%Z)
    as (a & h' & hgt & Hrun & Hfresh & Hnew & Hframe & _).
  - eexists. reflexivity.
  - exact I.
  - exact I.
  - exists a, h', hgt. split; [exact Hrun|]. split; [exact Hfresh|].
    split; [exact Hnew|]. apply Hframe.
    + intros <-. discriminate Hfresh.
    + discriminate.
Defined.

Lemma link_destroy_round_trip_witness :
  ∃ h',
    (c ←r BinaryTree._construct_node_link (tree_at_1 1) heap_one 3%Z
            (Some 1%positive) None None 0%Z;
     BinaryTree._destroy_node c.1.1 c.1.2 c.2)
      = Ok (tree_at_1 1, h', Some 1%positive) ∧
    h' = heap_one.
Proof.
  destruct (link_destroy_round_trip (tree_at_1 1) heap_one 3%Z 1
              (leaf 5 None) None None 0%Z)
    as (h' & Hrun & _ & Hleft & _).
  - reflexivity.
  - exact I.
  - exact I.
  - exact I.
  - exact I.
  - exists h'. split; [exact Hrun|]. apply Hleft; reflexivity.
Defined.

Lemma destroy_node_frees_one_witness :
  ∃ h', BinaryTree._destroy_node (tree_at_1 2) heap_two (Some 2%positive)
          = Ok (tree_at_1 2, h', Some 1%positive) ∧
    dom h' = dom heap_two ∖ {[2%positive]} ∧
    base.size heap_two = S (base.size h').
Proof.
  destruct (destroy_node_frees_one (tree_at_1 2) heap_two 2
              (leaf 3 (Some 1%positive)))
    as (h' & Hrun & Hdom & Hsize & _).
  - reflexivity.
  - eexists. reflexivity.
  - exists h'. split; [exact Hrun|]. split; [exact Hdom|exact Hsize].
Defined.

Lemma heights_ok_heap_one : heights_ok heap_one (Some 1%positive).
Proof.
  apply (heights_ok_node heap_one 1 (leaf 5 None)).
  - reflexivity.
  - apply heights_ok_null.
  - apply heights_ok_null.
  - reflexivity.
Defined.

Lemma link_keeps_heights_witness :
  ∃ h', Node_link heap_one 2 9%Z None (Some 1%positive) None 7%Z = Ok h' ∧
    heights_ok h' (Some 2%positive).
Proof.
  apply (link_keeps_heights heap_one 2 9%Z (Some 1%positive) None 7%Z).
  - reflexivity.
  - exact heights_ok_heap_one.
  - apply heights_ok_null.
Defined.

Lemma link_leaves_parent_height_stale_witness :
  ∃ h' pn', Node_link heap_one 2 3%Z (Some 1%positive) None None 0%Z = Ok h' ∧
    h' !! 1%positive = Some pn' ∧ Node.height pn' = 0%Z ∧
    (Node.left pn' = Some 2%positive ∨ Node.right pn' = Some 2%positive) ∧
    ¬ heights_ok h' (Some 1%positive).
Proof.
  apply (link_leaves_parent_height_stale heap_one 2 3%Z 1 (leaf 5 None) 0%Z).
  - reflexivity.
  - reflexivity.
  - reflexivity.
  - reflexivity.
  - reflexivity.
  - discriminate.
Defined.

Lemma link_leaf_keeps_shape_witness :
  ∃ a h', BinaryTree._construct_node_link (tree_at_1 2) heap_two 8%Z
            (Some 1%positive) None None 0%Z
            = Ok (tree_at_1 2, h', Some a) ∧
    heap_two !! a = None ∧ well_formed h'.
Proof.
  apply (link_leaf_keeps_shape (tree_at_1 2) heap_two 8%Z 1
           (Node.mk 5%Z None (Some 2%positive) None 1%Z) 0%Z).
  - exact well_formed_heap_two.
  - reflexivity.
  - discriminate.
  - discriminate.
  - reflexivity.
Defined.

Lemma destroy_leaf_keeps_shape_witness :
  ∃ h', BinaryTree._destroy_node (tree_at_1 3) heap_three (Some 2%positive)
          = Ok (tree_at_1 3, h', Some 1%positive) ∧
    h' !! 2%positive = None ∧ well_formed h'.
Proof.
  apply (destroy_leaf_keeps_shape (tree_at_1 3) heap_three 2
           (leaf 3 (Some 1%positive))).
  - exact well_formed_heap_three.
  - reflexivity.
  - reflexivity.
  - reflexivity.
Defined.

Lemma link_equal_value_orphan_witness :
  ∃ a h' hgt, BinaryTree._construct_node_link (tree_at_1 1) heap_one 5%Z
                (Some 1%positive) None None 0%Z
                = Ok (tree_at_1 1, h', Some a) ∧
    heap_one !! a = None ∧
    h' !! a = Some (Node.mk 5%Z (Some 1%positive) None None hgt) ∧
    h' !! 1%positive = Some (leaf 5 None) ∧
    ¬ well_formed h'.
Proof.
  apply (link_equal_value_orphan (tree_at_1 1) heap_one 5%Z 1 (leaf 5 None)
           None None 0%Z).
  - exact well_formed_heap_one.
  - reflexivity.
  - reflexivity.
  - exact I.
  - exact I.
Defined.

Lemma swap_exchanges_nodes_witness :
  ∃ hs', node_type.swap two_handles 10 11 = Ok hs' ∧
    hs' !! 10%positive = Some (node_type.mk (Some 1%positive) tt) ∧
    hs' !! 11%positive = Some (node_type.mk None tt) ∧
    (∀ x, x ≠ 10%positive → x ≠ 11%positive → hs' !! x = two_handles !! x) ∧
    node_type.swap hs' 10 11 = Ok two_handles.
Proof.
  apply (swap_exchanges_nodes two_handles 10 11 (node_type.mk None tt)
           (node_type.mk (Some 1%positive) tt)).
  - reflexivity.
  - reflexivity.
Defined.

Lemma destroy_idempotent_witness :
  ∃ hs' h', node_type._destroy two_handles heap_one 11 = Ok (hs', h') ∧
    hs' !! 11%positive = Some (node_type.mk None tt) ∧
    h' = delete 1%positive heap_one ∧
    node_type._destroy hs' h' 11 = Ok (hs', h').
Proof.
  apply (destroy_idempotent two_handles heap_one 11
           (node_type.mk (Some 1%positive) tt)).
  - reflexivity.
  - eexists. reflexivity.
Defined.

Lemma copy_construct_deep_witness :
  ∃ hs' h', node_type.copy_construct tt two_handles heap_one 12 11 None
              = Ok (hs', h') ∧
    hs' !! 11%positive = Some (node_type.mk (Some 1%positive) tt) ∧
    (∀ b nb, heap_one !! b = Some nb → h' !! b = Some nb) ∧
    ∃ a nb, heap_one !! 1%positive = Some nb ∧ heap_one !! a = None ∧
      hs' !! 12%positive = Some (node_type.mk (Some a) tt) ∧
      h' = <[a := Node.mk (Node.value nb) None None None 0%Z]> heap_one.
Proof.
  apply (copy_construct_deep tt two_handles heap_one 12 11
           (node_type.mk (Some 1%positive) tt) None).
  - reflexivity.
  - reflexivity.
  - eexists. reflexivity.
Defined.

Lemma copy_assign_deep_witness :
  node_type.copy_assign two_handles heap_one 10 10 = Ok (two_handles, heap_one) ∧
  ∃ hs' h' h1, node_type.copy_assign two_handles heap_one 10 11 = Ok (hs', h') ∧
    h1 = heap_one ∧
    hs' !! 11%positive = Some (node_type.mk (Some 1%positive) tt) ∧
    ∃ a nb, heap_one !! 1%positive = Some nb ∧ h1 !! a = None ∧
      hs' !! 10%positive = Some (node_type.mk (Some a) tt) ∧
      h' = <[a := Node.mk (Node.value nb) None None None 0%Z]> h1.
Proof.
  apply (copy_assign_deep two_handles heap_one 10 11 (node_type.mk None tt)
           (node_type.mk (Some 1%positive) tt)).
  - reflexivity.
  - reflexivity.
  - discriminate.
  - exact I.
  - eexists. reflexivity.
  - right. discriminate.
Defined.


(** * Trees built by the base class alone, and handles that share a node *)

Section CompositionFacts.
Context {T : Type} `{Ordered T}.
Context {Alloc NodeAlloc : Type} `{EqDecision Alloc} `{EqDecision NodeAlloc}.
Import BinaryTree.

Lemma run_ops_tree (os : list node_op) (t t' : binary_tree Alloc NodeAlloc)
    (h h' : heap T) :
  run_ops os t h = Ok (t', h') → t' = t.
Proof.
  revert t h. induction os as [|o os IH]; intros t h; cbn [run_ops].
  - by intros [= <- _].
  - intros Hr. apply rbind_Ok in Hr as ([t1 h1] & Hop & Hr).
    apply run_op_tree in Hop as ->. cbn in Hr. by apply IH in Hr.
Qed.

(** X16: a tree made by [binary_tree()] has a null root and size 0, and no
    sequence of node constructions and [_destroy_node] calls changes that:
    the tree stays [empty()], and an iterator built from it is at the end
    position, so dereferencing it throws. *)
Theorem fresh_tree_stays_empty (al : Alloc) (nal : NodeAlloc)
    (os : list node_op) (h h' : heap T) (t' : binary_tree Alloc NodeAlloc) :
  run_ops os (binary_tree_new al nal) h = Ok (t', h') →
  root t' = None ∧ size t' = 0%Z ∧ empty t' = true ∧
  const_iterator.deref h' (const_iterator.of_tree t')
    = Throw "segmentation fault" ∧
  iterator.deref h' (iterator.of_tree t') = Throw "segmentation fault".
Proof. intros ->%run_ops_tree. by repeat split. Qed.

End CompositionFacts.

Section AliasFacts.
Context {T : Type} {NodeAlloc : Type}.
Import node_type.

(** X17: when two handles hold the same node (as after assigning both from
    one iterator position), destroying one of them frees the node and
    leaves the other handle unchanged, still holding the freed node:
    reading its value, or destroying it too, is then undefined. *)
Theorem aliased_handles_double_free
    (hs : gmap positive (node_type.t NodeAlloc)) (h : heap T)
    (x y : addr) (dx dy : node_type.t NodeAlloc) a n :
  x ≠ y → hs !! x = Some dx → hs !! y = Some dy →
  node dx = Some a → node dy = Some a → h !! a = Some n →
  ∃ hs1, destructor hs h x = Ok (hs1, delete a h) ∧
    hs1 !! x = None ∧ hs1 !! y = Some dy ∧
    value (delete a h) dy = Undefined ∧
    destructor hs1 (delete a h) y = Undefined.
Proof.
  intros Hne Hx Hy Hdx Hdy Ha. unfold destructor at 1.
  rewrite (_destroy_result hs h x dx Hx)
    by (rewrite Hdx; cbn; by eexists).
  cbn [rbind fst snd]. rewrite Hdx.
  eexists. split; [done|]. split; [by rewrite lookup_delete_eq|].
  assert (Hy1 : delete x (<[x:=mk None (allocator dx)]> hs) !! y = Some dy).
  { rewrite lookup_delete_ne by done. by rewrite lookup_insert_ne. }
  split; [done|]. split.
  - unfold value. rewrite Hdy. unfold load. by rewrite lookup_delete_eq.
  - unfold destructor, _destroy. rewrite (get_Some _ _ _ Hy1).
    cbn [rbind]. rewrite Hdy. unfold load. by rewrite lookup_delete_eq.
Qed.

End AliasFacts.

Lemma fresh_tree_stays_empty_witness :
  BinaryTree.run_ops
      [BinaryTree.OpConstructLink 5%Z None None None 0%Z;
       BinaryTree.OpConstructLink 3%Z (Some 1%positive) None None 0%Z]
      (BinaryTree.binary_tree_new tt tt) ∅
    = Ok (BinaryTree.binary_tree_new tt tt, heap_two_flat) ∧
  root (BinaryTree.binary_tree_new tt tt : binary_tree unit unit) = None ∧
  const_iterator.deref heap_two_flat
      (const_iterator.of_tree (BinaryTree.binary_tree_new tt tt : binary_tree unit unit))
    = Throw "segmentation fault".
Proof.
  assert (Hrun : BinaryTree.run_ops
      [BinaryTree.OpConstructLink 5%Z None None None 0%Z;
       BinaryTree.OpConstructLink 3%Z (Some 1%positive) None None 0%Z]
      (BinaryTree.binary_tree_new tt tt) ∅
    = Ok (BinaryTree.binary_tree_new tt tt, heap_two_flat))
    by (vm_compute; reflexivity).
  split; [exact Hrun|].
  destruct (fresh_tree_stays_empty tt tt _ _ _ _ Hrun) as (Hr & _ & _ & Hd & _).
  split; [exact Hr|exact Hd].
Defined.

Lemma aliased_handles_double_free_witness :
  ∃ hs1, node_type.destructor shared_handles heap_one 10
           = Ok (hs1, delete 1%positive heap_one) ∧
    hs1 !! 10%positive = None ∧
    hs1 !! 11%positive = Some (node_type.mk (Some 1%positive) tt) ∧
    node_type.value (delete 1%positive heap_one)
      (node_type.mk (Some 1%positive) tt) = Undefined ∧
    node_type.destructor hs1 (delete 1%positive heap_one) 11 = Undefined.
Proof.
  apply (aliased_handles_double_free shared_handles heap_one 10 11
           (node_type.mk (Some 1%positive) tt)
           (node_type.mk (Some 1%positive) tt) 1 (leaf 5 None)).
  - discriminate.
  - reflexivity.
  - reflexivity.
  - reflexivity.
  - reflexivity.
  - reflexivity.
Defined.
